(** * Notebook code of the Data-Scientist repository, embedded in Rocq

    The development follows the code cells of two notebooks of the repository:

    - [quantile_ci] and [quantile_permtest] of
      [5. Experimental_Design/3_non-parametric_tests_a.ipynb];
    - [create_train_test], [FunkSVD], [predict_rating] and
      [validation_comparison] of
      [6. Recommendation_Engines/2_Matrix_Factorization/3 how are we doing.ipynb].

    Python's effects are written out: a computation threads a state (the
    global random generator, the store of arrays, the printed lines) and
    ends in a value or in a raised exception; the state reached is kept in
    both cases, as it is in Python.  Floating-point numbers are a parameter
    of the development (class [Scalar]); the instance [float64] is IEEE
    binary64, the [np.float64] of the notebooks, and it is the one every
    concrete run below uses. *)

From Stdlib Require Import ZArith QArith Floats Lia.
From stdpp Require Import list strings.

Local Open Scope Z_scope.
Local Open Scope nat_scope.

(** ** Python computations *)

Module Py.

(** The exceptions the modelled cells can raise.  [InvalidReference] is
    the model's own: a location outside the store, which no Python
    program can hold. *)
Inductive exn : Type :=
| IndexError
| ValueError
| UnboundLocalError
| ZeroDivisionError
| InvalidReference.

Inductive result (A : Type) : Type :=
| Ok (a : A)
| Raise (e : exn).
Arguments Ok {A} a.
Arguments Raise {A} e.

(** A computation over a state [S]: result and final state. *)
Definition M (S A : Type) : Type := S -> result A * S.

Definition ret {S A} (a : A) : M S A := fun s => (Ok a, s).

Definition bind {S A B} (m : M S A) (k : A -> M S B) : M S B :=
  fun s =>
    match m s with
    | (Ok a, s') => k a s'
    | (Raise e, s') => (Raise e, s')
    end.

Definition raise {S A} (e : exn) : M S A := fun s => (Raise e, s).

(** A pure step that may raise. *)
Definition lift {S A} (r : result A) : M S A := fun s => (r, s).

(** [for a in l: b = body(a, b)], the locals the body rebinds being [b]. *)
Fixpoint for_each {S A B} (l : list A) (body : A -> B -> M S B) (b : B)
  : M S B :=
  match l with
  | [] => ret b
  | a :: l' => bind (body a b) (for_each l' body)
  end.

(** [for i in range(n)]. *)
Definition for_range {S B} (n : nat) (body : nat -> B -> M S B) (b : B)
  : M S B :=
  for_each (seq 0 n) body b.

End Py.

Import Py.

(** stdpp's monad notation: [x ← m; k] and [m ;; k]. *)
#[export] Instance M_ret {S} : MRet (M S) := @ret S.
#[export] Instance M_bind {S} : MBind (M S) := fun A B k m => bind m k.
#[export] Instance result_ret : MRet result := @Ok.
#[export] Instance result_bind : MBind result := fun A B k r =>
  match r with
  | Ok a => k a
  | Raise e => Raise e
  end.

(** ** Numbers *)

(** What the cells ask of their floating-point numbers.  No law is assumed:
    every general theorem below holds for any arithmetic, IEEE included. *)
Class Scalar (F : Type) : Type := {
  of_Z : Z -> F;            (* a Python int where a float is expected *)
  fadd : F -> F -> F;
  fsub : F -> F -> F;
  fmul : F -> F -> F;
  fdiv : F -> F -> F;
  fle : F -> F -> bool;     (* a <= b, False on NaN *)
  flt : F -> F -> bool;     (* a < b, False on NaN *)
  isnan : F -> bool
}.

Module Float64.

Definition float_of_Z (z : Z) : float :=
  match z with
  | Z0 => PrimFloat.zero
  | Zpos _ => PrimFloat.of_uint63 (Uint63.of_Z z)
  | Zneg p => PrimFloat.opp (PrimFloat.of_uint63 (Uint63.of_Z (Zpos p)))
  end.

#[export] Instance float64 : Scalar float := {|
  of_Z := float_of_Z;
  fadd := PrimFloat.add;
  fsub := PrimFloat.sub;
  fmul := PrimFloat.mul;
  fdiv := PrimFloat.div;
  fle := PrimFloat.leb;
  flt := PrimFloat.ltb;
  isnan := PrimFloat.is_nan
|}.

(** The largest integer below a non-negative float (0 otherwise). *)
Definition floor_nat (f : float) : nat :=
  match FloatOps.Prim2SF f with
  | SpecFloat.S754_finite false m e => Z.to_nat (Z.shiftl (Zpos m) e)
  | _ => 0
  end.

End Float64.

Import Float64.

(** ** NumPy values and operations *)

Module Numpy.

Section Arrays.
Context {F : Type} `{Scalar F}.

(** A two-dimensional [ndarray]: its shape and its elements in row-major
    order, as NumPy stores them. *)
Record ndarray : Type := {
  shape0 : nat;
  shape1 : nat;
  data : list F
}.

Definition well_shaped (a : ndarray) : Prop :=
  length (data a) = shape0 a * shape1 a.

Definition in_bounds (a : ndarray) (i j : nat) : bool :=
  (i <? shape0 a) && (j <? shape1 a).

(** [a[i, j]] for non-negative [i] and [j]. *)
Definition item (a : ndarray) (i j : nat) : result F :=
  if in_bounds a i j then
    match data a !! (i * shape1 a + j) with
    | Some v => Ok v
    | None => Raise IndexError
    end
  else Raise IndexError.

(** [a[i, j] = v]. *)
Definition setitem (a : ndarray) (i j : nat) (v : F) : result ndarray :=
  if in_bounds a i j then
    Ok {| shape0 := shape0 a; shape1 := shape1 a;
          data := <[i * shape1 a + j := v]> (data a) |}
  else Raise IndexError.

(** [a[i, :]]. *)
Definition row (a : ndarray) (i : nat) : result (list F) :=
  if i <? shape0 a then Ok (take (shape1 a) (drop (i * shape1 a) (data a)))
  else Raise IndexError.

(** [a[:, j]]. *)
Definition column (a : ndarray) (j : nat) : result (list F) :=
  if j <? shape1 a then
    Ok (omap (fun i => data a !! (i * shape1 a + j)) (seq 0 (shape0 a)))
  else Raise IndexError.

(** [np.dot(u, v)] of two one-dimensional arrays, the products summed from
    the first to the last. *)
Definition dot (u v : list F) : result F :=
  if length u =? length v then
    Ok (foldl (fun acc p => fadd acc (fmul p.1 p.2)) (of_Z 0) (zip u v))
  else Raise ValueError.

(** [np.count_nonzero(~np.isnan(a))]. *)
Definition count_not_nan (a : ndarray) : nat :=
  length (List.filter (fun v => negb (isnan v)) (data a)).

(** [x[labels == v]]: a boolean mask must be as long as the array. *)
Definition mask_eq (x : list F) (labels : list Z) (v : Z) : result (list F) :=
  if length labels =? length x then
    Ok ((fun p => p.1) <$> List.filter (fun p => Z.eqb p.2 v) (zip x labels))
  else Raise IndexError.

(** [(l <= v).sum()] and [(l >= v).sum()]. *)
Definition count_le (l : list F) (v : F) : nat :=
  length (List.filter (fun d => fle d v) l).
Definition count_ge (l : list F) (v : F) : nat :=
  length (List.filter (fun d => fle v d) l).

End Arrays.

Arguments ndarray F : clear implicits.

(** [np.where(series == v)[0]]: the positions holding [v], in order. *)
Fixpoint where_from (k : nat) (series : list Z) (v : Z) : list nat :=
  match series with
  | [] => []
  | s :: rest =>
      if Z.eqb s v then k :: where_from (S k) rest v
      else where_from (S k) rest v
  end.
Definition where_eq (series : list Z) (v : Z) : list nat :=
  where_from 0 series v.

(** [l[0]]. *)
Definition first_item {A} (l : list A) : result A :=
  match l with
  | [] => Raise IndexError
  | a :: _ => Ok a
  end.

(** The value of [a / b] for two integers, one of them a NumPy integer:
    NumPy does not raise on a zero divisor.  The quotient is kept exact;
    NumPy hands back the double nearest to it, which lies between 0 and 1
    whenever the exact quotient does. *)
Inductive quotient : Type :=
| Finite (q : Q)
| Infinite (negative : bool)
| NotANumber.

Definition true_divide (a b : Z) : quotient :=
  if Z.eqb b 0 then
    if Z.eqb a 0 then NotANumber else Infinite (Z.ltb a 0)
  else Finite (inject_Z a / inject_Z b)%Q.

Definition in_unit_interval (p : quotient) : Prop :=
  match p with
  | Finite q => (0 <= q /\ q <= 1)%Q
  | _ => False
  end.

(** The library functions the cells call, kept abstract: [np.percentile]
    and the draws of NumPy's global generator, whose state is [G].
    [np.percentile(a, p)] raises on an empty array and on a level [p]
    outside [0, 100]. *)
Class Percentile (F : Type) : Type :=
  percentile : list F -> F -> result F.

(** The check [np.percentile] makes of its level: [0 <= p / 100 <= 1],
    which fails when [p] is NaN. *)
Definition level_in_range {F} `{Scalar F} (p : F) : bool :=
  let q := fdiv p (of_Z 100) in
  fle (of_Z 0) q && fle q (of_Z 1).

(** What NumPy does of it: a level that fails the check is a
    [ValueError], whatever the array; with a level that passes, an empty
    array is an [IndexError] and an array with an element has a
    percentile. *)
Class PercentileLaws (F : Type) `{Scalar F} `{Percentile F} : Prop := {
  percentile_level : forall a p,
    level_in_range p = false -> percentile a p = Raise ValueError;
  percentile_empty : forall p,
    level_in_range p = true -> percentile [] p = Raise IndexError;
  percentile_value : forall a p,
    a <> [] -> level_in_range p = true -> exists v, percentile a p = Ok v
}.

Class RandomState (F G : Type) : Type := {
  (* np.random.rand(n, m) *)
  rand : nat -> nat -> G -> ndarray F * G;
  (* np.random.choice(data, n, replace = True) *)
  choice : list F -> nat -> G -> list F * G;
  (* np.random.permutation(y) *)
  permutation : list Z -> G -> list Z * G
}.

(** What NumPy documents of them. *)
Class RandomStateLaws (F G : Type) `{Scalar F} `{RandomState F G} : Prop := {
  rand_shape : forall n m g,
    shape0 (rand n m g).1 = n /\ shape1 (rand n m g).1 = m
    /\ well_shaped (rand n m g).1;
  choice_sample : forall data0 n g,
    n = 0 \/ data0 <> [] ->
    length (choice data0 n g).1 = n
    /\ (forall v, v ∈ (choice data0 n g).1 -> v ∈ data0);
  permutation_perm : forall y g, (permutation y g).1 ≡ₚ y
}.

(** A call of the generator, as a computation over its state. *)
Definition draw {G A} (f : G -> A * G) : M G A :=
  fun g => (Ok (f g).1, (f g).2).

(** [n] calls of the generator one after the other: what they return, in
    order, and the state they leave. *)
Fixpoint draws {G A} (f : G -> A * G) (n : nat) (g : G) : list A * G :=
  match n with
  | 0 => ([], g)
  | S n' =>
      let first := f g in
      let rest := draws f n' first.2 in
      (first.1 :: rest.1, rest.2)
  end.

End Numpy.

Import Numpy.

(** ** 3_non-parametric_tests_a.ipynb *)

Module NonParametric.

Section Cells.
Context {F G : Type} `{Scalar F} `{Percentile F} `{RandomState F G}.

(** [def quantile_ci(data, q, c = .95, n_trials = 1000)].  [data] is a
    one-dimensional array; the defaults are left to the caller. *)
Definition quantile_ci (data0 : list F) (q c : F) (n_trials : Z)
  : M G (F * F) :=
  let n_points := length data0 in
  sample_qs ← for_range (Z.to_nat n_trials) (fun _ sample_qs =>
    sample ← draw (choice data0 n_points);
    sample_q ← lift (percentile sample (fmul (of_Z 100) q));
    mret (sample_qs ++ [sample_q])) [];
  lower_limit ← lift (percentile sample_qs
    (fmul (fdiv (fsub (of_Z 1) c) (of_Z 2)) (of_Z 100)));
  upper_limit ← lift (percentile sample_qs
    (fmul (fdiv (fadd (of_Z 1) c) (of_Z 2)) (of_Z 100)));
  mret (lower_limit, upper_limit).

(** The difference of group quantiles, [exp_q - cond_q], for the data
    [x] grouped by [labels]; it raises when a mask does not fit and when
    [np.percentile] does. *)
Definition quantile_diff (x : list F) (labels : list Z) (q : F)
  : result F :=
  group0 ← mask_eq x labels 0;
  cond_q ← percentile group0 (fmul (of_Z 100) q);
  group1 ← mask_eq x labels 1;
  exp_q ← percentile group1 (fmul (of_Z 100) q);
  mret (fsub exp_q cond_q).

(** The branches that bind the local [hits]; [None] is "unbound". *)
Definition count_hits (alternative : string) (sample_diffs : list F)
    (obs_diff : F) : option nat :=
  if String.eqb alternative "less" then
    Some (count_le sample_diffs obs_diff)
  else if String.eqb alternative "greater" then
    Some (count_ge sample_diffs obs_diff)
  else None.

(** [def quantile_permtest(x, y, q, alternative = 'less',
    n_trials = 10_000)]: [x] holds the data and [y] the 0/1 labels. *)
Definition quantile_permtest (x : list F) (y : list Z) (q : F)
    (alternative : string) (n_trials : Z) : M G quotient :=
  sample_diffs ← for_range (Z.to_nat n_trials) (fun _ sample_diffs =>
    labels ← draw (permutation y);
    d ← lift (quantile_diff x labels q);
    mret (sample_diffs ++ [d])) [];
  obs_diff ← lift (quantile_diff x y q);
  match count_hits alternative sample_diffs obs_diff with
  | Some hits => mret (true_divide (Z.of_nat hits) n_trials)
  | None => raise UnboundLocalError
  end.

End Cells.

End NonParametric.

Import NonParametric.

(** ** 3 how are we doing.ipynb *)

Module MatrixFactorization.

(** *** The train and validation split *)

(** [reviews.sort_values(order_by)], pandas' sort of the rows by a column
    of the frame. *)
Class SortValues (Row : Type) : Type :=
  sort_values : list Row -> string -> list Row.

Class SortValuesLaws (Row : Type) `{SortValues Row} : Prop :=
  sort_values_perm : forall (df : list Row) by_, sort_values df by_ ≡ₚ df.

Section Split.
Context {Row : Type} `{SortValues Row}.

(** [df.head(n)]: the first [n] rows, or all but the last [-n]. *)
Definition head (df : list Row) (n : Z) : list Row :=
  if (0 <=? n)%Z then take (Z.to_nat n) df
  else take (length df - Z.to_nat (- n)) df.

(** Where a slice bound [k] falls in a frame of [len] rows. *)
Definition slice_bound (len : nat) (k : Z) : nat :=
  if (k <? 0)%Z then Z.to_nat (Z.max 0 (Z.of_nat len + k))
  else Nat.min (Z.to_nat k) len.

(** [df.iloc[a:b]]. *)
Definition iloc (df : list Row) (a b : Z) : list Row :=
  let start := slice_bound (length df) a in
  let stop := slice_bound (length df) b in
  take (stop - start) (drop start df).

(** [def create_train_test(reviews, order_by, training_size,
    testing_size)]. *)
Definition create_train_test (reviews : list Row) (order_by : string)
    (training_size testing_size : Z) : list Row * list Row :=
  let reviews_new := sort_values reviews order_by in
  let training_df := head reviews_new training_size in
  let validation_df :=
    iloc reviews_new training_size (training_size + testing_size) in
  (training_df, validation_df).

End Split.

(** *** Training *)

Section Training.
Context {F G : Type} `{Scalar F} `{RandomState F G}.

(** What [print] writes. *)
Inductive line : Type :=
| Text (s : string)
| Progress (iteration : nat) (mse : F).  (* "%d \t\t %f" *)

(** The state a call can touch: the arrays, by address; the lines
    printed so far; NumPy's global generator. *)
Record world : Type := {
  heap : list (ndarray F);
  stdout : list line;
  generator : G
}.

Definition load (l : nat) : M world (ndarray F) :=
  fun w =>
    match heap w !! l with
    | Some a => (Ok a, w)
    | None => (Raise InvalidReference, w)
    end.

Definition store (l : nat) (a : ndarray F) : M world unit :=
  fun w =>
    (Ok tt, {| heap := <[l := a]> (heap w); stdout := stdout w;
               generator := generator w |}).

Definition allocate (a : ndarray F) : M world nat :=
  fun w =>
    (Ok (length (heap w)),
     {| heap := heap w ++ [a]; stdout := stdout w;
        generator := generator w |}).

Definition print (ln : line) : M world unit :=
  fun w =>
    (Ok tt, {| heap := heap w; stdout := stdout w ++ [ln];
               generator := generator w |}).

(** [np.random.rand(n, m)]: a new array, filled by the generator. *)
Definition np_random_rand (n m : nat) : M world nat :=
  fun w =>
    let drawn := rand n m (generator w) in
    allocate drawn.1
      {| heap := heap w; stdout := stdout w; generator := drawn.2 |}.

(** [a[i, j]] and [a[i, j] = v] through the reference [l]. *)
Definition getitem (l i j : nat) : M world F :=
  a ← load l; lift (item a i j).

Definition setitem_at (l i j : nat) (v : F) : M world unit :=
  a ← load l; a' ← lift (setitem a i j v); store l a'.

(** The local [sse_accum]: the int [0] it is reset to, or a float. *)
Inductive pynum : Type :=
| PyInt (z : Z)
| PyFloat (f : F).

Definition as_float (n : pynum) : F :=
  match n with
  | PyInt z => of_Z z
  | PyFloat f => f
  end.

(** [a / b] with [b] a Python int: two ints raise on a zero divisor, a
    NumPy float does not. *)
Definition py_div (a : pynum) (b : Z) : result F :=
  match a with
  | PyInt z =>
      if Z.eqb b 0 then Raise ZeroDivisionError
      else Ok (fdiv (of_Z z) (of_Z b))
  | PyFloat f => Ok (fdiv f (of_Z b))
  end.

(** [if ratings_mat[i, j] > 0], "if the rating exists". *)
Definition rating_exists (r : F) : bool := flt (of_Z 0) r.

(** The body of [for k in range(latent_features)]. *)
Definition update_factors (user_mat movie_mat : nat)
    (learning_rate diff : F) (i j k : nat) : M world unit :=
  u ← getitem user_mat i k;
  m ← getitem movie_mat k j;
  setitem_at user_mat i k
    (fadd u (fmul learning_rate (fmul (fmul (of_Z 2) diff) m)));;
  m ← getitem movie_mat k j;
  u ← getitem user_mat i k;
  setitem_at movie_mat k j
    (fadd m (fmul learning_rate (fmul (fmul (of_Z 2) diff) u))).

(** The body of [for j in range(n_movies)]. *)
Definition visit (ratings_mat user_mat movie_mat : nat)
    (latent_features : nat) (learning_rate : F) (i j : nat)
    (sse_accum : pynum) : M world pynum :=
  r ← getitem ratings_mat i j;
  if rating_exists r then
    r ← getitem ratings_mat i j;
    users ← load user_mat;
    user_row ← lift (row users i);
    movies ← load movie_mat;
    movie_col ← lift (column movies j);
    predicted ← lift (dot user_row movie_col);
    let diff := fsub r predicted in
    let sse_accum := PyFloat (fadd (as_float sse_accum) (fmul diff diff)) in
    for_range latent_features (fun k _ =>
      update_factors user_mat movie_mat learning_rate diff i j k) tt;;
    mret sse_accum
  else mret sse_accum.

(** The body of [for iteration in range(iters)]. *)
Definition iterate (ratings_mat user_mat movie_mat : nat)
    (n_users n_movies num_ratings latent_features : nat)
    (learning_rate : F) (iteration : nat) (sse_accum : pynum)
  : M world pynum :=
  let old_sse := sse_accum in
  let sse_accum := PyInt 0 in
  sse_accum ← for_range n_users (fun i sse_accum =>
    for_range n_movies (fun j sse_accum =>
      visit ratings_mat user_mat movie_mat latent_features
        learning_rate i j sse_accum) sse_accum) sse_accum;
  mse ← lift (py_div sse_accum (Z.of_nat num_ratings));
  print (Progress (iteration + 1) mse);;
  mret sse_accum.

(** [def FunkSVD(ratings_mat, latent_features=12, learning_rate=0.0001,
    iters=100)].  [ratings_mat] is a reference to the caller's array;
    the result is the pair of references [user_mat, movie_mat]. *)
Definition FunkSVD (ratings_mat : nat) (latent_features : nat)
    (learning_rate : F) (iters : nat) : M world (nat * nat) :=
  ratings ← load ratings_mat;
  let n_users := shape0 ratings in
  let n_movies := shape1 ratings in
  let num_ratings := count_not_nan ratings in
  user_mat ← np_random_rand n_users latent_features;
  movie_mat ← np_random_rand latent_features n_movies;
  let sse_accum := PyInt 0 in
  print (Text "Optimizaiton Statistics");;
  print (Text "Iterations | Mean Squared Error ");;
  for_range iters (iterate ratings_mat user_mat movie_mat n_users
    n_movies num_ratings latent_features learning_rate) sse_accum;;
  mret (user_mat, movie_mat).

(** *** Prediction *)

(** The part of the global [train_data_df] the cell reads: its row
    labels (user ids) and its column labels (movie ids). *)
Record DataFrame : Type := {
  index : list Z;
  columns : list Z
}.

(** [def predict_rating(user_matrix, movie_matrix, user_id, movie_id)],
    the global [train_data_df] made an argument. *)
Definition predict_rating (train_data_df : DataFrame)
    (user_matrix movie_matrix : ndarray F) (user_id movie_id : Z)
  : result F :=
  let user_ids_series := index train_data_df in
  let movie_ids_series := columns train_data_df in
  user_row ← first_item (where_eq user_ids_series user_id);
  movie_col ← first_item (where_eq movie_ids_series movie_id);
  u ← row user_matrix user_row;
  v ← column movie_matrix movie_col;
  pred ← dot u v;
  mret pred.

End Training.

Arguments line F : clear implicits.
Arguments world F G : clear implicits.
Arguments pynum F : clear implicits.

End MatrixFactorization.

Import MatrixFactorization.

(** ** Stand-ins for the library, to run the cells on concrete inputs *)

Module Run.

Local Open Scope float_scope.

Fixpoint insert_sorted (v : float) (l : list float) : list float :=
  match l with
  | [] => [v]
  | h :: t => if PrimFloat.leb v h then v :: l else h :: insert_sorted v t
  end.

Definition sorted (l : list float) : list float := foldr insert_sorted [] l.

Definition float_of_nat (n : nat) : float := float_of_Z (Z.of_nat n).

(** Linear interpolation from [a] to [b] by [t], as NumPy's [_lerp]. *)
Definition lerp (a b t : float) : float :=
  if 0.5 <=? t then b - (b - a) * (1 - t) else a + (b - a) * t.

(** [np.percentile] with its default method, on data without NaN: the
    level is checked, then the value is interpolated between the two
    closest ranks of the sorted data. *)
#[export] Instance percentile_linear : Percentile float := fun a p =>
  if level_in_range p then
    match sorted a with
    | [] => Raise IndexError
    | (s0 :: _) as s =>
        let indices := (p / 100) * float_of_nat (length s - 1) in
        let below := floor_nat indices in
        let above := Nat.min (S below) (length s - 1) in
        Ok (lerp (nth below s s0) (nth above s s0)
              (indices - float_of_nat below))
    end
  else Raise ValueError.

(** A generator: the count of the doubles handed out so far, the [k]-th
    double being [uniform k], a number of [0, 1). *)
Definition uniform (k : nat) : float :=
  float_of_nat ((k * 37 + 11) mod 64) / 64.

Definition pick (len k : nat) : nat :=
  floor_nat (uniform k * float_of_nat len).

#[export] Instance cursor : RandomState float nat := {|
  rand n m g :=
    ({| shape0 := n; shape1 := m; data := uniform <$> seq g (n * m) |},
     (g + n * m)%nat);
  choice data0 n g :=
    (match data0 with
     | [] => []
     | d0 :: _ => (fun k => nth (pick (length data0) k) data0 d0) <$> seq g n
     end, (g + n)%nat);
  permutation y g :=
    (drop (pick (length y) g) y ++ take (pick (length y) g) y, (g + 1)%nat)
|}.

(** Rows of the reviews frame and a sort by one of their columns. *)
Record review : Type := {
  user_id : Z;
  movie_id : Z;
  rating : Z;
  timestamp : Z
}.

Definition field (by_ : string) (r : review) : Z :=
  if String.eqb by_ "user_id" then user_id r
  else if String.eqb by_ "movie_id" then movie_id r
  else if String.eqb by_ "rating" then rating r
  else timestamp r.

Fixpoint insert_by (by_ : string) (r : review) (l : list review)
  : list review :=
  match l with
  | [] => [r]
  | h :: t =>
      if (field by_ r <=? field by_ h)%Z then r :: l
      else h :: insert_by by_ r t
  end.

#[export] Instance sort_reviews : SortValues review := fun df by_ =>
  foldr (insert_by by_) [] df.

End Run.

Import Run.

(** * Properties *)

(** ** Loops *)

Section Loops.
Context {St B : Type}.
Implicit Types (body : nat -> B -> M St B) (b : B) (s : St).

Lemma bind_ok {A C} (m : M St A) (k : A -> M St C) s a s' :
  m s = (Ok a, s') -> (m ≫= k) s = k a s'.
Proof. intros E. unfold mbind, M_bind, bind. now rewrite E. Qed.

Lemma bind_raise {A C} (m : M St A) (k : A -> M St C) s e s' :
  m s = (Raise e, s') -> (m ≫= k) s = (Raise e, s').
Proof. intros E. unfold mbind, M_bind, bind. now rewrite E. Qed.

Lemma for_each_app {A} (l1 l2 : list A) (body : A -> B -> M St B) b s :
  for_each (l1 ++ l2) body b s =
  match for_each l1 body b s with
  | (Ok b', s') => for_each l2 body b' s'
  | (Raise e, s') => (Raise e, s')
  end.
Proof.
  revert b s. induction l1 as [|a l1 IH]; intros b s; simpl.
  - reflexivity.
  - unfold bind. destruct (body a b s) as [[b'|e] s']; [apply IH | reflexivity].
Qed.

(** One more turn of [for i in range(n)]. *)
Lemma for_range_S n body b s :
  for_range (S n) body b s =
  match for_range n body b s with
  | (Ok b', s') => body n b' s'
  | (Raise e, s') => (Raise e, s')
  end.
Proof.
  unfold for_range. rewrite seq_S, for_each_app. simpl.
  destruct (for_each (seq 0 n) body b s) as [[b'|e] s']; [|reflexivity].
  unfold bind. destruct (body n b' s') as [[b''|e] s'']; reflexivity.
Qed.

(** A loop whose turns all succeed, with an invariant indexed by the
    number of turns made. *)
Lemma for_range_invariant (I : nat -> B -> St -> Prop) n body b s :
  I 0 b s ->
  (forall i b s, i < n -> I i b s ->
     exists b' s', body i b s = (Ok b', s') /\ I (S i) b' s') ->
  exists b' s', for_range n body b s = (Ok b', s') /\ I n b' s'.
Proof.
  intros H0 Hstep. induction n as [|n IH].
  - exists b, s. split; [reflexivity | exact H0].
  - destruct IH as (b1 & s1 & E1 & I1).
    { intros i b0 s0 Hi. apply Hstep. lia. }
    destruct (Hstep n b1 s1 (Nat.lt_succ_diag_r n) I1) as (b2 & s2 & E2 & I2).
    exists b2, s2. split; [|exact I2].
    rewrite for_range_S, E1. exact E2.
Qed.

(** A property of the state that every turn keeps, whether it returns or
    raises, is kept by the loop. *)
Lemma for_range_preserves (J : St -> Prop) n body b s :
  J s ->
  (forall i b s, i < n -> J s -> J (body i b s).2) ->
  J (for_range n body b s).2.
Proof.
  intros H0 Hstep. induction n as [|n IH].
  - exact H0.
  - rewrite for_range_S.
    assert (J (for_range n body b s).2) as Hn.
    { apply IH. intros i b0 s0 Hi. apply Hstep. lia. }
    destruct (for_range n body b s) as [[b'|e] s']; simpl in *.
    + apply Hstep; [lia | exact Hn].
    + exact Hn.
Qed.

End Loops.

(** ** The bootstrap interval and the permutation test *)

Section NonParametricFacts.
Context {F G : Type} `{Scalar F} `{Percentile F} `{RandomState F G}.
Context `{!PercentileLaws F} `{!RandomStateLaws F G}.

(** A sample that [np.random.choice(data, n_points, replace = True)]
    returned: [n_points] values, each one of the data. *)
Definition bootstrap_sample (data0 sample : list F) : Prop :=
  length sample = length data0
  /\ (forall v, v ∈ sample -> v ∈ data0).

Lemma choice_bootstrap data0 g :
  bootstrap_sample data0 (choice data0 (length data0) g).1.
Proof.
  assert (length data0 = 0 \/ data0 <> []) as Hne.
  { destruct data0; [left; reflexivity | right; discriminate]. }
  exact (choice_sample data0 (length data0) g Hne).
Qed.

(** One more call after [n]. *)
Lemma draws_snoc {A} (f : G -> A * G) n g :
  draws f (S n) g =
  ((draws f n g).1 ++ [(f (draws f n g).2).1], (f (draws f n g).2).2).
Proof.
  revert g. induction n as [|n IH]; intros g; [reflexivity|].
  change (draws f (S (S n)) g)
    with ((f g).1 :: (draws f (S n) (f g).2).1, (draws f (S n) (f g).2).2).
  now rewrite IH.
Qed.

Lemma draws_length {A} (f : G -> A * G) n g : length (draws f n g).1 = n.
Proof. revert g. induction n as [|n IH]; intros g; simpl; [|rewrite IH]; reflexivity. Qed.

Lemma draws_Forall {A} (P : A -> Prop) (f : G -> A * G) n g :
  (forall g0, P (f g0).1) -> Forall P (draws f n g).1.
Proof.
  intros HP. revert g. induction n as [|n IH]; intros g; simpl; constructor; auto.
Qed.

(** A loop that calls the generator at every turn and gathers what a
    step [h], which may raise, makes of each value drawn. *)
Lemma gather_loop {A B} (f : G -> A * G) (h : A -> result B) n g :
  (forall g0, exists b, h (f g0).1 = Ok b) ->
  exists bs,
    for_range n (fun _ gathered =>
      a ← draw f; b ← lift (h a); mret (gathered ++ [b])) [] g
    = (Ok bs, (draws f n g).2)
    /\ Forall2 (fun a b => h a = Ok b) (draws f n g).1 bs.
Proof.
  intros Hh.
  destruct (for_range_invariant
    (fun k (bs : list B) (s : G) =>
       s = (draws f k g).2 /\ Forall2 (fun a b => h a = Ok b) (draws f k g).1 bs)
    n (fun _ gathered => a ← draw f; b ← lift (h a); mret (gathered ++ [b]))
    [] g) as (bs & s & E & -> & Hbs).
  - split; [reflexivity | constructor].
  - intros k bs s _ [-> Hbs]. destruct (Hh (draws f k g).2) as [b Hb].
    exists (bs ++ [b]), (f (draws f k g).2).2. split.
    + unfold mbind, M_bind, bind, draw, lift. simpl. now rewrite Hb.
    + rewrite draws_snoc. simpl. split; [reflexivity|].
      apply Forall2_app; [exact Hbs | now repeat constructor].
  - exists bs. auto.
Qed.

Lemma mask_eq_ok (x : list F) labels v :
  length labels = length x -> exists group, mask_eq x labels v = Ok group.
Proof.
  intros E. unfold mask_eq. rewrite E, Nat.eqb_refl. eexists; reflexivity.
Qed.

(** A label that occurs selects a group with an element. *)
Lemma mask_eq_group (x : list F) labels v :
  length labels = length x -> v ∈ labels ->
  exists group, mask_eq x labels v = Ok group /\ group <> [].
Proof.
  intros E Hv. unfold mask_eq. rewrite E, Nat.eqb_refl.
  eexists. split; [reflexivity|].
  revert x E. induction labels as [|l labels IH]; intros x E.
  - now apply elem_of_nil in Hv.
  - destruct x as [|x0 x]; [discriminate|]. simpl.
    destruct (Z.eqb_spec l v) as [-> | Hne]; [discriminate|].
    apply elem_of_cons in Hv as [-> | Hv]; [congruence|].
    apply IH; [exact Hv | now injection E].
Qed.

(** The data is split in two groups of at least one point each, and the
    level [100 * q] is one [np.percentile] takes. *)
Lemma quantile_diff_ok (x : list F) labels q :
  length labels = length x -> (0%Z ∈ labels) -> (1%Z ∈ labels) ->
  level_in_range (fmul (of_Z 100) q) = true ->
  exists d, quantile_diff x labels q = Ok d.
Proof.
  intros E Hzero Hone Hq. unfold quantile_diff.
  destruct (mask_eq_group x labels 0%Z E Hzero) as (g0 & -> & Hg0).
  destruct (mask_eq_group x labels 1%Z E Hone) as (g1 & -> & Hg1).
  destruct (percentile_value g0 _ Hg0 Hq) as [c0 E0].
  destruct (percentile_value g1 _ Hg1 Hq) as [c1 E1].
  simpl. rewrite E0. simpl. rewrite E1. eexists; reflexivity.
Qed.

(** The trials of the permutation test on well-formed arrays: every
    reshuffling of the labels gives a quantile difference. *)
Lemma permtest_loop (x : list F) y q n g :
  length x = length y -> (0%Z ∈ y) -> (1%Z ∈ y) ->
  level_in_range (fmul (of_Z 100) q) = true ->
  exists sample_diffs,
    for_range n (fun _ sample_diffs =>
      labels ← draw (permutation y);
      d ← lift (quantile_diff x labels q);
      mret (sample_diffs ++ [d])) [] g
    = (Ok sample_diffs, (draws (permutation y) n g).2)
    /\ Forall2 (fun labels d => quantile_diff x labels q = Ok d)
         (draws (permutation y) n g).1 sample_diffs.
Proof.
  intros Hxy Hzero Hone Hq.
  apply (gather_loop (permutation y) (fun labels => quantile_diff x labels q)).
  intros g0. pose proof (permutation_perm y g0) as Hperm.
  apply quantile_diff_ok; [| | |exact Hq].
  - rewrite (Permutation_length Hperm). now symmetry.
  - now rewrite Hperm.
  - now rewrite Hperm.
Qed.

Lemma count_le_bound (l : list F) v : count_le l v <= length l.
Proof. apply filter_length_le. Qed.

Lemma count_ge_bound (l : list F) v : count_ge l v <= length l.
Proof. apply filter_length_le. Qed.

Lemma true_divide_unit (h n : Z) :
  (0 <= h)%Z -> (h <= n)%Z -> (0 < n)%Z ->
  true_divide h n = Finite (inject_Z h / inject_Z n)
  /\ in_unit_interval (Finite (inject_Z h / inject_Z n)).
Proof.
  intros Hh Hn Hpos. split.
  - unfold true_divide. destruct (Z.eqb_spec n 0); [lia | reflexivity].
  - assert (inject_Z 0 < inject_Z n)%Q as Hq
      by (rewrite <- Zlt_Qlt; exact Hpos).
    simpl. split.
    + apply Qle_shift_div_l; [exact Hq|]. rewrite Qmult_0_l.
      change (inject_Z 0 <= inject_Z h)%Q. rewrite <- Zle_Qle. exact Hh.
    + apply Qle_shift_div_r; [exact Hq|]. rewrite Qmult_1_l.
      rewrite <- Zle_Qle. exact Hn.
Qed.

(** C4, amended.  On data with at least one point, for at least one trial
    and levels that [np.percentile] takes ([100 * q], [(1 - c)/2 * 100]
    and [(1 + c)/2 * 100] within [0, 100]), [quantile_ci] draws exactly
    [n_trials] bootstrap samples, the successive results of
    [np.random.choice(data, n_points, replace = True)], each of [n_points]
    values of the data; it takes the [q]-th quantile of each (the
    percentile at [100 * q]) and returns the pair of the percentiles of
    these sampled quantiles at [(1 - c)/2 * 100] and [(1 + c)/2 * 100],
    that is their [(1 - c)/2] and [(1 + c)/2] quantiles; the generator is
    left as the [n_trials] draws leave it. *)
Theorem quantile_ci_bootstrap (data0 : list F) (q c : F) (n_trials : Z)
    (g : G) :
  data0 <> [] ->
  (0 < n_trials)%Z ->
  level_in_range (fmul (of_Z 100) q) = true ->
  level_in_range (fmul (fdiv (fsub (of_Z 1) c) (of_Z 2)) (of_Z 100)) = true ->
  level_in_range (fmul (fdiv (fadd (of_Z 1) c) (of_Z 2)) (of_Z 100)) = true ->
  let drawn := draws (choice data0 (length data0)) (Z.to_nat n_trials) g in
  Z.of_nat (length drawn.1) = n_trials
  /\ Forall (bootstrap_sample data0) drawn.1
  /\ exists sample_qs lower_limit upper_limit,
       Forall2 (fun sample sample_q =>
                  percentile sample (fmul (of_Z 100) q) = Ok sample_q)
         drawn.1 sample_qs
       /\ percentile sample_qs
            (fmul (fdiv (fsub (of_Z 1) c) (of_Z 2)) (of_Z 100))
          = Ok lower_limit
       /\ percentile sample_qs
            (fmul (fdiv (fadd (of_Z 1) c) (of_Z 2)) (of_Z 100))
          = Ok upper_limit
       /\ quantile_ci data0 q c n_trials g
          = (Ok (lower_limit, upper_limit), drawn.2).
Proof.
  intros Hdata Hpos Hq Hlo Hhi. cbv zeta.
  split; [rewrite draws_length; lia|].
  split; [apply draws_Forall; intros g0; apply choice_bootstrap|].
  destruct (gather_loop (choice data0 (length data0))
    (fun sample => percentile sample (fmul (of_Z 100) q))
    (Z.to_nat n_trials) g) as (sample_qs & E & Hqs).
  { intros g0. apply percentile_value; [|exact Hq].
    destruct (choice_bootstrap data0 g0) as [Hlen _].
    intros Hnil. rewrite Hnil in Hlen. destruct data0; [congruence | discriminate]. }
  assert (sample_qs <> []) as Hne.
  { apply Forall2_length in Hqs. rewrite draws_length in Hqs.
    intros ->. simpl in Hqs. lia. }
  destruct (percentile_value sample_qs _ Hne Hlo) as [lower Elo].
  destruct (percentile_value sample_qs _ Hne Hhi) as [upper Ehi].
  exists sample_qs, lower, upper.
  split; [exact Hqs|]. split; [exact Elo|]. split; [exact Ehi|].
  unfold quantile_ci. erewrite bind_ok by exact E.
  erewrite bind_ok by (unfold lift; rewrite Elo; reflexivity).
  erewrite bind_ok by (unfold lift; rewrite Ehi; reflexivity).
  reflexivity.
Qed.

(** C3, amended.  On a data array [x] and a label array [y] of the same
    length in which both labels 0 and 1 occur, for a quantile [q] whose
    level [100 * q] lies within [0, 100], [alternative] "less" or
    "greater" and at least one trial, [quantile_permtest] returns
    [hits / n_trials]: [hits] counts, among the [n_trials] quantile
    differences under the labels that the successive calls of
    [np.random.permutation(y)] return, those that are [<=] the observed
    difference for "less" and [>=] it for "greater"; the value lies in
    [0, 1]. *)
Theorem quantile_permtest_p_value (x : list F) (y : list Z) (q : F)
    (alternative : string) (n_trials : Z) (g : G) :
  length x = length y ->
  (0%Z ∈ y) ->
  (1%Z ∈ y) ->
  level_in_range (fmul (of_Z 100) q) = true ->
  alternative = "less" \/ alternative = "greater" ->
  (0 < n_trials)%Z ->
  let drawn := draws (permutation y) (Z.to_nat n_trials) g in
  Forall (fun labels => labels ≡ₚ y) drawn.1
  /\ exists sample_diffs obs_diff,
       Z.of_nat (length sample_diffs) = n_trials
       /\ Forall2 (fun labels d => quantile_diff x labels q = Ok d)
            drawn.1 sample_diffs
       /\ quantile_diff x y q = Ok obs_diff
       /\ let hits :=
            if String.eqb alternative "less"
            then count_le sample_diffs obs_diff
            else count_ge sample_diffs obs_diff in
          let p := Finite (inject_Z (Z.of_nat hits) / inject_Z n_trials) in
          quantile_permtest x y q alternative n_trials g = (Ok p, drawn.2)
          /\ in_unit_interval p.
Proof.
  intros Hxy Hzero Hone Hq Halt Hpos. cbv zeta.
  split; [apply draws_Forall; intros g0; apply permutation_perm|].
  destruct (permtest_loop x y q (Z.to_nat n_trials) g Hxy Hzero Hone Hq)
    as (ds & E & Hds).
  destruct (quantile_diff_ok x y q) as [obs Hobs]; auto.
  exists ds, obs.
  assert (length ds = Z.to_nat n_trials) as Hlen.
  { apply Forall2_length in Hds. now rewrite draws_length in Hds. }
  split; [lia|]. split; [exact Hds|]. split; [exact Hobs|].
  set (hits := if String.eqb alternative "less"
               then count_le ds obs else count_ge ds obs).
  assert (hits <= length ds) as Hhits.
  { unfold hits. destruct (String.eqb alternative "less");
      [apply count_le_bound | apply count_ge_bound]. }
  destruct (true_divide_unit (Z.of_nat hits) n_trials) as [Hdiv Hunit];
    [lia | lia | exact Hpos |].
  split; [|exact Hunit].
  unfold quantile_permtest. erewrite bind_ok by exact E.
  erewrite bind_ok by (unfold lift; rewrite Hobs; reflexivity).
  assert (count_hits alternative ds obs = Some hits) as ->.
  { unfold count_hits, hits. destruct Halt as [-> | ->]; reflexivity. }
  unfold mret, M_ret, ret. now rewrite Hdiv.
Qed.

(** C10.  For any [alternative] other than "less" and "greater",
    [quantile_permtest] returns no p-value: the call raises, whatever its
    other arguments, and on arguments with which the statements before
    the branch go through (arrays of the same length, both labels
    present, a level [100 * q] within [0, 100]) what it raises is the
    unbound-local error of the unassigned [hits]. *)
Theorem quantile_permtest_other_alternative (x : list F) (y : list Z)
    (q : F) (alternative : string) (n_trials : Z) (g : G) :
  alternative <> "less" ->
  alternative <> "greater" ->
  (exists e, (quantile_permtest x y q alternative n_trials g).1 = Raise e)
  /\ (length x = length y ->
      (0%Z ∈ y) ->
      (1%Z ∈ y) ->
      level_in_range (fmul (of_Z 100) q) = true ->
      (quantile_permtest x y q alternative n_trials g).1
      = Raise UnboundLocalError).
Proof.
  intros Hless Hgreater.
  assert (forall ds obs, count_hits alternative ds obs = None) as Hnone.
  { intros ds obs. unfold count_hits.
    apply String.eqb_neq in Hless, Hgreater. now rewrite Hless, Hgreater. }
  split.
  - unfold quantile_permtest, mbind, M_bind, bind, lift.
    destruct (for_range _ _ _ g) as [[ds|e] g1]; [|eexists; reflexivity].
    destruct (quantile_diff x y q) as [obs|e]; [|eexists; reflexivity].
    rewrite Hnone. eexists; reflexivity.
  - intros Hxy Hzero Hone Hq.
    destruct (permtest_loop x y q (Z.to_nat n_trials) g Hxy Hzero Hone Hq)
      as (ds & E & _).
    destruct (quantile_diff_ok x y q) as [obs Hobs]; auto.
    unfold quantile_permtest. erewrite bind_ok by exact E.
    erewrite bind_ok by (unfold lift; rewrite Hobs; reflexivity).
    now rewrite Hnone.
Qed.

End NonParametricFacts.

(** ** The train and validation split *)

Section SplitFacts.
Context {Row : Type} `{SortValues Row} `{!SortValuesLaws Row}.
Implicit Types (df : list Row).

Lemma head_take df (n : Z) : (0 <= n)%Z -> head df n = take (Z.to_nat n) df.
Proof. intros Hn. unfold head. destruct (Z.leb_spec 0 n); [reflexivity | lia]. Qed.

Lemma slice_bound_nonneg len (k : Z) :
  (0 <= k)%Z -> slice_bound len k = Nat.min (Z.to_nat k) len.
Proof. intros Hk. unfold slice_bound. destruct (Z.ltb_spec k 0); [lia | reflexivity]. Qed.

(** A slice [a : a + n] with non-negative bounds: [n] rows from row [a]. *)
Lemma iloc_take_drop df (a n : Z) :
  (0 <= a)%Z -> (0 <= n)%Z ->
  iloc df a (a + n) = take (Z.to_nat n) (drop (Z.to_nat a) df).
Proof.
  intros Ha Hn. unfold iloc.
  rewrite !slice_bound_nonneg by lia.
  rewrite Z2Nat.inj_add by lia.
  set (i := Z.to_nat a). set (k := Z.to_nat n).
  destruct (Nat.le_gt_cases (length df) i) as [Hge | Hlt].
  - rewrite Nat.min_r by lia. rewrite !drop_ge by lia. now rewrite !take_nil.
  - rewrite (Nat.min_l i) by lia.
    destruct (Nat.le_gt_cases (i + k) (length df)) as [Hfit | Hover].
    + rewrite Nat.min_l by lia. f_equal. lia.
    + rewrite Nat.min_r by lia.
      rewrite !take_ge; [reflexivity | | ]; rewrite length_drop; lia.
Qed.

(** C5.  For non-negative sizes, [create_train_test] returns as training
    set the first [training_size] rows of the frame sorted by [order_by]
    and as validation set the next [testing_size] rows.  The two are
    disjoint: they are consecutive segments of the sorted frame, and no
    row of a frame without repeated rows is in both. *)
Theorem create_train_test_split (reviews : list Row) (order_by : string)
    (training_size testing_size : Z) :
  (0 <= training_size)%Z ->
  (0 <= testing_size)%Z ->
  let reviews_new := sort_values reviews order_by in
  let training_df :=
    (create_train_test reviews order_by training_size testing_size).1 in
  let validation_df :=
    (create_train_test reviews order_by training_size testing_size).2 in
  training_df = take (Z.to_nat training_size) reviews_new
  /\ validation_df =
     take (Z.to_nat testing_size) (drop (Z.to_nat training_size) reviews_new)
  /\ (exists rest, reviews_new = training_df ++ validation_df ++ rest)
  /\ (NoDup reviews -> forall r, r ∈ training_df -> r ∉ validation_df).
Proof.
  intros Ht Hs. cbv zeta. unfold create_train_test. simpl.
  rewrite head_take, iloc_take_drop by assumption.
  set (sorted_df := sort_values reviews order_by).
  set (t := Z.to_nat training_size). set (n := Z.to_nat testing_size).
  assert (sorted_df = take t sorted_df
            ++ take n (drop t sorted_df) ++ drop n (drop t sorted_df)) as Hsplit.
  { now rewrite (take_drop n), (take_drop t). }
  split; [reflexivity|]. split; [reflexivity|].
  split; [eexists; exact Hsplit|].
  intros Hnodup r Hin Hin'.
  assert (NoDup sorted_df) as Hnd.
  { unfold sorted_df. now rewrite sort_values_perm. }
  rewrite Hsplit in Hnd. apply NoDup_app in Hnd as (_ & Hdisj & _).
  apply (Hdisj r Hin). apply elem_of_app. now left.
Qed.

End SplitFacts.

(** ** Arrays *)

Section ArrayFacts.
Context {F : Type} `{Scalar F}.
Implicit Types (a : ndarray F) (u v : list F).

Lemma flat_index_lt (n m i j : nat) : i < n -> j < m -> i * m + j < n * m.
Proof. intros Hi Hj. nia. Qed.

Lemma in_bounds_true a i j :
  i < shape0 a -> j < shape1 a -> in_bounds a i j = true.
Proof.
  intros Hi Hj. unfold in_bounds.
  apply andb_true_intro. split; now apply Nat.ltb_lt.
Qed.

Lemma item_ok a i j :
  well_shaped a -> i < shape0 a -> j < shape1 a ->
  exists x, item a i j = Ok x /\ data a !! (i * shape1 a + j) = Some x.
Proof.
  intros Hws Hi Hj. unfold item. rewrite in_bounds_true by assumption.
  destruct (lookup_lt_is_Some_2 (data a) (i * shape1 a + j)) as [x Hx].
  { rewrite Hws. now apply flat_index_lt. }
  exists x. now rewrite Hx.
Qed.

Lemma setitem_ok a i j x :
  i < shape0 a -> j < shape1 a ->
  exists a', setitem a i j x = Ok a'
    /\ shape0 a' = shape0 a /\ shape1 a' = shape1 a
    /\ (well_shaped a -> well_shaped a').
Proof.
  intros Hi Hj. unfold setitem. rewrite in_bounds_true by assumption.
  eexists. split; [reflexivity|]. simpl. repeat split.
  unfold well_shaped. simpl. now rewrite length_insert.
Qed.

Lemma row_ok a i :
  well_shaped a -> i < shape0 a ->
  exists u, row a i = Ok u /\ length u = shape1 a
    /\ forall k, k < shape1 a -> u !! k = data a !! (i * shape1 a + k).
Proof.
  intros Hws Hi. unfold row.
  destruct (Nat.ltb_spec i (shape0 a)); [|lia].
  eexists. split; [reflexivity|]. split.
  - rewrite length_take, length_drop, Hws. nia.
  - intros k Hk. rewrite lookup_take_lt by exact Hk. apply lookup_drop.
Qed.

Lemma omap_seq_total {A} (f : nat -> option A) (g : nat -> A) n :
  (forall i, i < n -> f i = Some (g i)) -> omap f (seq 0 n) = g <$> seq 0 n.
Proof.
  intros Hf. induction n as [|n IH]; [reflexivity|].
  rewrite seq_S, omap_app, fmap_app, IH by (intros; apply Hf; lia).
  simpl. now rewrite Hf by lia.
Qed.

Lemma column_ok a j :
  well_shaped a -> j < shape1 a ->
  exists v, column a j = Ok v /\ length v = shape0 a
    /\ forall i, i < shape0 a -> v !! i = data a !! (i * shape1 a + j).
Proof.
  intros Hws Hj. unfold column.
  destruct (Nat.ltb_spec j (shape1 a)); [|lia].
  destruct (data a) as [|d0 rest] eqn:Hdata.
  - exists []. assert (shape0 a = 0) as Hz.
    { unfold well_shaped in Hws. rewrite Hdata in Hws. simpl in Hws. nia. }
    rewrite Hz. repeat split. all: intros; lia.
  - rewrite <- Hdata.
    assert (forall i, i < shape0 a ->
              data a !! (i * shape1 a + j)
              = Some (nth (i * shape1 a + j) (data a) d0)) as Hnth.
    { intros i Hi.
      destruct (nth_lookup_or_length (data a) (i * shape1 a + j) d0)
        as [E | Hlen]; [exact E|].
      rewrite Hws in Hlen. pose proof (flat_index_lt _ _ _ _ Hi Hj). lia. }
    rewrite (omap_seq_total _ _ _ Hnth).
    eexists. split; [reflexivity|]. split.
    + now rewrite length_fmap, length_seq.
    + intros i Hi. rewrite list_lookup_fmap, lookup_seq_lt by exact Hi.
      simpl. now rewrite Hnth.
Qed.

Lemma dot_ok u v :
  length u = length v ->
  dot u v = Ok (foldl (fun acc p => fadd acc (fmul p.1 p.2)) (of_Z 0) (zip u v)).
Proof. intros E. unfold dot. now rewrite E, Nat.eqb_refl. Qed.

(** No match of [np.where] exactly for an absent value. *)
Lemma where_from_nil k (series : list Z) (x : Z) :
  where_from k series x = [] <-> x ∉ series.
Proof.
  revert k. induction series as [|s rest IH]; intros k; simpl.
  - split; [intros _; apply not_elem_of_nil | reflexivity].
  - destruct (Z.eqb_spec s x) as [-> | Hne].
    + split; [discriminate | intros Hnot; exfalso; apply Hnot; left].
    + rewrite IH, not_elem_of_cons. split; [intros; split; congruence | tauto].
Qed.

(** The first match of [np.where] is the first position of the value. *)
Lemma where_from_first k (series : list Z) (x : Z) :
  x ∈ series ->
  exists p rest, where_from k series x = (k + p) :: rest
    /\ series !! p = Some x
    /\ forall p', p' < p -> series !! p' <> Some x.
Proof.
  revert k. induction series as [|s tl IH]; intros k Hin.
  - now apply elem_of_nil in Hin.
  - simpl. destruct (Z.eqb_spec s x) as [-> | Hne].
    + exists 0, (where_from (S k) tl x). rewrite Nat.add_0_r.
      repeat split. intros p' Hp'. lia.
    + apply elem_of_cons in Hin as [-> | Hin]; [congruence|].
      destruct (IH (S k) Hin) as (p & rest & E & Hp & Hfirst).
      exists (S p), rest. rewrite E. split; [f_equal; lia|].
      split; [exact Hp|].
      intros [|p'] Hlt; simpl; [congruence | apply Hfirst; lia].
Qed.

End ArrayFacts.

(** ** Prediction *)

Section PredictionFacts.
Context {F : Type} `{Scalar F}.

Lemma first_match (series : list Z) (x : Z) :
  x ∈ series ->
  exists p, first_item (where_eq series x) = Ok p
    /\ series !! p = Some x
    /\ forall p', p' < p -> series !! p' <> Some x.
Proof.
  intros Hin. unfold where_eq.
  destruct (where_from_first 0 series x Hin) as (p & rest & E & Hp & Hfirst).
  exists p. rewrite E. auto.
Qed.

Lemma no_match (series : list Z) (x : Z) :
  x ∉ series -> where_eq series x = [].
Proof. intros Hnot. now apply where_from_nil. Qed.

(** C6.  For a user id of the training frame's row index and a movie id
    of its column index, and the factor matrices of that frame (one row
    of the user matrix per row label, one column of the movie matrix per
    column label, over the same latent features), [predict_rating]
    returns the dot product of the user-matrix row at the first position
    of the user id and the movie-matrix column at the first position of
    the movie id. *)
Theorem predict_rating_dot (train_data_df : DataFrame)
    (user_matrix movie_matrix : ndarray F) (user_id movie_id : Z) :
  user_id ∈ index train_data_df ->
  movie_id ∈ columns train_data_df ->
  well_shaped user_matrix ->
  well_shaped movie_matrix ->
  shape0 user_matrix = length (index train_data_df) ->
  shape1 movie_matrix = length (columns train_data_df) ->
  shape1 user_matrix = shape0 movie_matrix ->
  exists user_row movie_col u v,
    (index train_data_df !! user_row = Some user_id
     /\ forall p, p < user_row -> index train_data_df !! p <> Some user_id)
    /\ (columns train_data_df !! movie_col = Some movie_id
        /\ forall p, p < movie_col ->
             columns train_data_df !! p <> Some movie_id)
    /\ length u = shape1 user_matrix
    /\ length v = shape1 user_matrix
    /\ (forall k, k < shape1 user_matrix ->
          exists a b,
            item user_matrix user_row k = Ok a /\ u !! k = Some a
            /\ item movie_matrix k movie_col = Ok b /\ v !! k = Some b)
    /\ predict_rating train_data_df user_matrix movie_matrix user_id movie_id
       = Ok (foldl (fun acc p => fadd acc (fmul p.1 p.2)) (of_Z 0) (zip u v)).
Proof.
  intros Hu Hm HwsU HwsM HrowsU HcolsM Hlatent.
  destruct (first_match _ _ Hu) as (user_row & Eu & Hur & Hufirst).
  destruct (first_match _ _ Hm) as (movie_col & Em & Hmc & Hmfirst).
  assert (user_row < shape0 user_matrix) as Hr.
  { rewrite HrowsU. eapply lookup_lt_Some. exact Hur. }
  assert (movie_col < shape1 movie_matrix) as Hc.
  { rewrite HcolsM. eapply lookup_lt_Some. exact Hmc. }
  destruct (row_ok user_matrix user_row HwsU Hr) as (u & Erow & Hlenu & Hu_at).
  destruct (column_ok movie_matrix movie_col HwsM Hc)
    as (v & Ecol & Hlenv & Hv_at).
  exists user_row, movie_col, u, v.
  split; [auto|]. split; [auto|]. split; [exact Hlenu|].
  split; [now rewrite Hlatent|]. split.
  - intros k Hk.
    destruct (item_ok user_matrix user_row k HwsU Hr Hk) as (a & Ea & Ha).
    assert (k < shape0 movie_matrix) as Hk' by now rewrite <- Hlatent.
    destruct (item_ok movie_matrix k movie_col HwsM Hk' Hc) as (b & Eb & Hb).
    exists a, b. rewrite Hu_at, Hv_at by assumption. auto.
  - unfold predict_rating. rewrite Eu. simpl. rewrite Em. simpl.
    rewrite Erow. simpl. rewrite Ecol. simpl.
    rewrite dot_ok by (rewrite Hlenu, Hlenv; exact Hlatent). reflexivity.
Qed.

(** C8.  [predict_rating] is partial: for a user id absent from the
    training frame's row index, or a movie id absent from its column
    index, the position lookup has no match and the call raises an
    [IndexError] instead of returning a prediction. *)
Theorem predict_rating_partial (train_data_df : DataFrame)
    (user_matrix movie_matrix : ndarray F) (user_id movie_id : Z) :
  user_id ∉ index train_data_df \/ movie_id ∉ columns train_data_df ->
  (where_eq (index train_data_df) user_id = []
   \/ where_eq (columns train_data_df) movie_id = [])
  /\ predict_rating train_data_df user_matrix movie_matrix user_id movie_id
     = Raise IndexError
  /\ forall pred,
       predict_rating train_data_df user_matrix movie_matrix user_id movie_id
       <> Ok pred.
Proof.
  intros Habsent.
  assert (predict_rating train_data_df user_matrix movie_matrix user_id
            movie_id = Raise IndexError) as E.
  { unfold predict_rating.
    destruct (first_item (where_eq (index train_data_df) user_id))
      as [user_row|e] eqn:Eu.
    - destruct Habsent as [Hu | Hm].
      + rewrite (no_match _ _ Hu) in Eu. discriminate.
      + simpl. now rewrite (no_match _ _ Hm).
    - simpl. unfold first_item in Eu.
      destruct (where_eq (index train_data_df) user_id); congruence. }
  split; [|split; [exact E | intros pred; rewrite E; discriminate]].
  destruct Habsent as [Hu | Hm]; [left | right]; now apply no_match.
Qed.

End PredictionFacts.

(** ** Training: what a call can and cannot touch *)

Section Preservation.
Context {St : Type}.

(** [m] keeps [J], whether it returns or raises. *)
Definition preserves {A} (J : St -> Prop) (m : M St A) : Prop :=
  forall s, J s -> J (m s).2.

Lemma preserves_ret {A} J (a : A) : preserves J (mret a : M St A).
Proof. intros s Hs. exact Hs. Qed.

Lemma preserves_lift {A} J (r : result A) : preserves J (lift r : M St A).
Proof. intros s Hs. exact Hs. Qed.

Lemma preserves_bind {A B} J (m : M St A) (k : A -> M St B) :
  preserves J m -> (forall a, preserves J (k a)) -> preserves J (m ≫= k).
Proof.
  intros Hm Hk s Hs. unfold mbind, M_bind, bind.
  specialize (Hm s Hs). destruct (m s) as [[a|e] s']; simpl in *.
  - now apply Hk.
  - exact Hm.
Qed.

Lemma preserves_for_range {B} J n (body : nat -> B -> M St B) b :
  (forall i b, preserves J (body i b)) -> preserves J (for_range n body b).
Proof.
  intros Hbody s Hs. apply for_range_preserves; [exact Hs|].
  intros i b0 s0 _. apply Hbody.
Qed.

End Preservation.

Section TrainingFrame.
Context {F G : Type} `{Scalar F} `{RandomState F G}.
Local Abbreviation world := (world F G).

(** With respect to a store [h0], printed lines [out0] and a generator
    state [g]: the arrays of [h0] are where they were and as they were,
    two arrays were added, only lines were added to the output, and the
    generator stands at [g]. *)
Definition untouched (h0 : list (ndarray F)) (out0 : list (line F)) (g : G)
    (w : world) : Prop :=
  take (length h0) (heap w) = h0
  /\ length (heap w) = length h0 + 2
  /\ (exists lines, stdout w = out0 ++ lines)
  /\ generator w = g.

Variables (h0 : list (ndarray F)) (out0 : list (line F)) (g : G).
Local Abbreviation J := (untouched h0 out0 g).

Lemma load_preserves l : preserves J (load l).
Proof. intros w Hw. unfold load. now destruct (heap w !! l). Qed.

Lemma store_preserves l a : length h0 <= l -> preserves J (store l a).
Proof.
  intros Hl w (Hheap & Hlen & Hout & Hgen). unfold store, untouched. simpl.
  rewrite take_insert_ge by exact Hl. rewrite length_insert. auto.
Qed.

Lemma print_preserves ln : preserves J (print ln).
Proof.
  intros w (Hheap & Hlen & (lines & Hout) & Hgen). unfold print, untouched.
  simpl. repeat split; try assumption.
  exists (lines ++ [ln]). now rewrite Hout, app_assoc.
Qed.

Lemma getitem_preserves l i j : preserves J (getitem l i j).
Proof.
  apply preserves_bind; [apply load_preserves | intros; apply preserves_lift].
Qed.

Lemma setitem_at_preserves l i j x :
  length h0 <= l -> preserves J (setitem_at l i j x).
Proof.
  intros Hl. apply preserves_bind; [apply load_preserves | intros a].
  apply preserves_bind; [apply preserves_lift | intros a'].
  now apply store_preserves.
Qed.

Lemma update_factors_preserves user_mat movie_mat learning_rate diff i j k :
  length h0 <= user_mat -> length h0 <= movie_mat ->
  preserves J (update_factors user_mat movie_mat learning_rate diff i j k).
Proof.
  intros Hu Hm. unfold update_factors.
  repeat (first
    [ apply getitem_preserves
    | apply setitem_at_preserves; assumption
    | apply preserves_bind; [|intros ?] ]).
Qed.

Lemma visit_preserves ratings_mat user_mat movie_mat latent_features
    learning_rate i j sse_accum :
  length h0 <= user_mat -> length h0 <= movie_mat ->
  preserves J (visit ratings_mat user_mat movie_mat latent_features
                 learning_rate i j sse_accum).
Proof.
  intros Hu Hm. unfold visit.
  apply preserves_bind; [apply getitem_preserves | intros r].
  destruct (rating_exists r); [|apply preserves_ret].
  repeat (first
    [ apply getitem_preserves
    | apply load_preserves
    | apply preserves_lift
    | apply preserves_ret
    | apply preserves_for_range; intros ? ?
    | apply update_factors_preserves; assumption
    | apply preserves_bind; [|intros ?] ]).
Qed.

Lemma iterate_preserves ratings_mat user_mat movie_mat n_users n_movies
    num_ratings latent_features learning_rate iteration sse_accum :
  length h0 <= user_mat -> length h0 <= movie_mat ->
  preserves J (iterate ratings_mat user_mat movie_mat n_users n_movies
                 num_ratings latent_features learning_rate iteration
                 sse_accum).
Proof.
  intros Hu Hm. unfold iterate.
  repeat (first
    [ apply preserves_for_range; intros ? ?
    | apply visit_preserves; assumption
    | apply preserves_lift
    | apply preserves_ret
    | apply print_preserves
    | apply preserves_bind; [|intros ?] ]).
Qed.

End TrainingFrame.

Section TrainingFrameTheorem.
Context {F G : Type} `{Scalar F} `{RandomState F G}.
Local Abbreviation world := (world F G).

(** The state after the two [np.random.rand] calls of [FunkSVD]. *)
Definition initialised (w : world) (ratings : ndarray F)
    (latent_features : nat) : world :=
  let drawn1 := rand (shape0 ratings) latent_features (generator w) in
  let drawn2 := rand latent_features (shape1 ratings) drawn1.2 in
  {| heap := (heap w ++ [drawn1.1]) ++ [drawn2.1];
     stdout := stdout w;
     generator := drawn2.2 |}.

(** What follows them: the two header lines and the iterations. *)
Definition training (ratings_mat : nat) (ratings : ndarray F)
    (user_mat movie_mat latent_features : nat) (learning_rate : F)
    (iters : nat) : M world (pynum F) :=
  print (Text "Optimizaiton Statistics");;
  print (Text "Iterations | Mean Squared Error ");;
  for_range iters (iterate ratings_mat user_mat movie_mat (shape0 ratings)
    (shape1 ratings) (count_not_nan ratings) latent_features learning_rate)
    (PyInt 0).

Lemma FunkSVD_unfold (w : world) ratings_mat ratings latent_features
    learning_rate iters :
  heap w !! ratings_mat = Some ratings ->
  FunkSVD ratings_mat latent_features learning_rate iters w =
  match training ratings_mat ratings (length (heap w)) (S (length (heap w)))
          latent_features learning_rate iters
          (initialised w ratings latent_features) with
  | (Ok _, w') => (Ok (length (heap w), S (length (heap w))), w')
  | (Raise e, w') => (Raise e, w')
  end.
Proof.
  intros Hr. unfold FunkSVD.
  erewrite bind_ok by (unfold load; rewrite Hr; reflexivity).
  erewrite bind_ok by reflexivity.
  erewrite bind_ok by reflexivity.
  simpl. rewrite length_app. simpl. rewrite Nat.add_1_r.
  unfold training, initialised, mbind, M_bind, bind. simpl.
  destruct (for_range iters _ _ _) as [[sse|e] w']; reflexivity.
Qed.

Lemma FunkSVD_dangling (w : world) ratings_mat latent_features
    learning_rate iters :
  heap w !! ratings_mat = None ->
  FunkSVD ratings_mat latent_features learning_rate iters w =
  (Raise InvalidReference, w).
Proof.
  intros Hr. unfold FunkSVD.
  erewrite bind_raise; [reflexivity|]. unfold load. now rewrite Hr.
Qed.

Lemma initialised_untouched (w : world) ratings latent_features :
  untouched (heap w) (stdout w)
    (generator (initialised w ratings latent_features))
    (initialised w ratings latent_features).
Proof.
  unfold untouched, initialised. simpl. repeat split.
  - rewrite <- app_assoc. apply take_app_length.
  - rewrite !length_app. simpl. lia.
  - exists []. now rewrite app_nil_r.
Qed.

Lemma training_preserves h0 out0 g ratings_mat ratings user_mat movie_mat
    latent_features learning_rate iters :
  length h0 <= user_mat -> length h0 <= movie_mat ->
  preserves (untouched h0 out0 g)
    (training ratings_mat ratings user_mat movie_mat latent_features
       learning_rate iters).
Proof.
  intros Hu Hm. unfold training.
  repeat (first
    [ apply print_preserves
    | apply preserves_for_range; intros ? ?
    | apply iterate_preserves; assumption
    | apply preserves_bind; [|intros ?] ]).
Qed.

(** C9, amended.  [FunkSVD] leaves its [ratings_mat] argument, and every
    other array that existed before the call, unchanged; the two factor
    matrices it returns are new arrays; and besides the lines it prints,
    the one state of the caller it changes is NumPy's global generator,
    advanced by the two [np.random.rand] calls that fill the factors. *)
Theorem FunkSVD_frame (w : world) (ratings_mat latent_features : nat)
    (learning_rate : F) (iters : nat) :
  let run := FunkSVD ratings_mat latent_features learning_rate iters w in
  (forall l a, heap w !! l = Some a -> heap run.2 !! l = Some a)
  /\ (exists lines, stdout run.2 = stdout w ++ lines)
  /\ (forall user_mat movie_mat,
        run.1 = Ok (user_mat, movie_mat) ->
        heap w !! user_mat = None /\ heap w !! movie_mat = None
        /\ user_mat <> movie_mat
        /\ is_Some (heap run.2 !! user_mat)
        /\ is_Some (heap run.2 !! movie_mat))
  /\ (forall ratings,
        heap w !! ratings_mat = Some ratings ->
        generator run.2 =
        (rand latent_features (shape1 ratings)
           (rand (shape0 ratings) latent_features (generator w)).2).2).
Proof.
  cbv zeta.
  destruct (heap w !! ratings_mat) as [ratings|] eqn:Hr.
  - rewrite (FunkSVD_unfold w ratings_mat ratings) by exact Hr.
    pose proof (training_preserves (heap w) (stdout w)
      (generator (initialised w ratings latent_features))
      ratings_mat ratings (length (heap w)) (S (length (heap w)))
      latent_features learning_rate iters (Nat.le_refl _)
      (Nat.le_succ_diag_r _) _ (initialised_untouched w ratings latent_features))
      as (Hheap & Hlen & Hout & Hgen).
    destruct (training _ _ _ _ _ _ _ _) as [[sse|e] w']; simpl in *.
    all: split; [intros l a Hl; rewrite <- Hheap in Hl;
                 rewrite lookup_take in Hl; case_decide; congruence|].
    all: split; [exact Hout|].
    all: split; [|intros ratings' [= <-]; exact Hgen].
    + intros user_mat movie_mat [= <- <-].
      rewrite !lookup_ge_None_2 by lia.
      repeat split; try lia; apply lookup_lt_is_Some_2; lia.
    + intros user_mat movie_mat [=].
  - rewrite FunkSVD_dangling by exact Hr. simpl.
    split; [auto|]. split; [exists []; now rewrite app_nil_r|].
    split; [intros ? ? [=] | intros ? [=]].
Qed.

End TrainingFrameTheorem.

(** ** Training: the shapes of the factors *)

Section TrainingShapes.
Context {F G : Type} `{Scalar F} `{RandomState F G}.
Local Abbreviation world := (world F G).

Lemma getitem_ok (w : world) l a i j :
  heap w !! l = Some a -> well_shaped a -> i < shape0 a -> j < shape1 a ->
  exists x, getitem l i j w = (Ok x, w).
Proof.
  intros Hl Hws Hi Hj. destruct (item_ok a i j Hws Hi Hj) as (x & Ex & _).
  exists x. unfold getitem.
  erewrite bind_ok by (unfold load; rewrite Hl; reflexivity).
  unfold lift. now rewrite Ex.
Qed.

Lemma setitem_at_ok (w : world) l a i j x :
  heap w !! l = Some a -> i < shape0 a -> j < shape1 a ->
  exists a',
    setitem_at l i j x w =
    (Ok tt, {| heap := <[l := a']> (heap w); stdout := stdout w;
               generator := generator w |})
    /\ shape0 a' = shape0 a /\ shape1 a' = shape1 a
    /\ (well_shaped a -> well_shaped a').
Proof.
  intros Hl Hi Hj.
  destruct (setitem_ok a i j x Hi Hj) as (a' & Ea & Hs0 & Hs1 & Hws).
  exists a'. split; [|auto]. unfold setitem_at.
  erewrite bind_ok by (unfold load; rewrite Hl; reflexivity).
  erewrite bind_ok by (unfold lift; rewrite Ea; reflexivity).
  reflexivity.
Qed.

Variables (h0 : list (ndarray F)) (ratings_mat : nat) (ratings : ndarray F).
Variables (latent_features user_mat movie_mat : nat).
Hypothesis ratings_at : h0 !! ratings_mat = Some ratings.
Hypothesis ratings_shaped : well_shaped ratings.
Hypothesis user_mat_new : length h0 <= user_mat.
Hypothesis movie_mat_new : length h0 <= movie_mat.
Hypothesis factors_apart : user_mat <> movie_mat.

(** The loop invariant: the caller's arrays are as they were, and the two
    factors have the shapes they were created with. *)
Definition factored (w : world) : Prop :=
  take (length h0) (heap w) = h0
  /\ exists U M,
       heap w !! user_mat = Some U /\ heap w !! movie_mat = Some M
       /\ shape0 U = shape0 ratings /\ shape1 U = latent_features
       /\ well_shaped U
       /\ shape0 M = latent_features /\ shape1 M = shape1 ratings
       /\ well_shaped M.

Lemma factored_ratings w : factored w -> heap w !! ratings_mat = Some ratings.
Proof.
  intros [Hheap _]. rewrite <- ratings_at.
  rewrite <- (lookup_take_lt (heap w) (length h0) ratings_mat)
    by (eapply lookup_lt_Some; exact ratings_at).
  now rewrite Hheap.
Qed.

Lemma update_factors_ok w learning_rate diff i j k :
  factored w -> i < shape0 ratings -> j < shape1 ratings ->
  k < latent_features ->
  exists w',
    update_factors user_mat movie_mat learning_rate diff i j k w = (Ok tt, w')
    /\ factored w'.
Proof.
  intros (Hheap & U & M0 & HU & HM & HU0 & HU1 & HUws & HM0 & HM1 & HMws)
    Hi Hj Hk.
  unfold update_factors.
  destruct (getitem_ok w user_mat U i k) as [u Eu]; try lia; try assumption.
  destruct (getitem_ok w movie_mat M0 k j) as [m Em]; try lia; try assumption.
  erewrite bind_ok by exact Eu. erewrite bind_ok by exact Em.
  destruct (setitem_at_ok w user_mat U i k
    (fadd u (fmul learning_rate (fmul (fmul (of_Z 2) diff) m))) HU)
    as (U' & EU' & HU0' & HU1' & HUws'); [lia | lia |].
  erewrite bind_ok by exact EU'.
  set (w1 := {| heap := <[user_mat := U']> (heap w); stdout := stdout w;
                generator := generator w |}).
  assert (heap w1 !! user_mat = Some U') as HU'.
  { simpl. apply list_lookup_insert_eq. eapply lookup_lt_Some. exact HU. }
  assert (heap w1 !! movie_mat = Some M0) as HM'.
  { simpl. rewrite list_lookup_insert_ne by exact factors_apart. exact HM. }
  destruct (getitem_ok w1 movie_mat M0 k j) as [m1 Em1];
    try lia; try assumption.
  destruct (getitem_ok w1 user_mat U' i k) as [u1 Eu1];
    try lia; try (apply HUws'; assumption); try assumption.
  erewrite bind_ok by exact Em1. erewrite bind_ok by exact Eu1.
  destruct (setitem_at_ok w1 movie_mat M0 k j
    (fadd m1 (fmul learning_rate (fmul (fmul (of_Z 2) diff) u1))) HM')
    as (M' & EM' & HM0' & HM1' & HMws'); [lia | lia |].
  eexists. split; [exact EM'|].
  split.
  - simpl. now rewrite !take_insert_ge by assumption.
  - exists U', M'. simpl.
    split. { rewrite list_lookup_insert_ne by congruence. exact HU'. }
    split. { apply list_lookup_insert_eq. eapply lookup_lt_Some. exact HM'. }
    repeat split; try congruence; auto.
Qed.

Lemma visit_ok w learning_rate i j sse_accum :
  factored w -> i < shape0 ratings -> j < shape1 ratings ->
  exists sse' w',
    visit ratings_mat user_mat movie_mat latent_features learning_rate i j
      sse_accum w = (Ok sse', w')
    /\ factored w'.
Proof.
  intros Hw Hi Hj. pose proof (factored_ratings w Hw) as Hr.
  destruct (getitem_ok w ratings_mat ratings i j Hr ratings_shaped Hi Hj)
    as [r Er].
  unfold visit. erewrite bind_ok by exact Er.
  destruct (rating_exists r); [|eexists _, _; split; [reflexivity | exact Hw]].
  erewrite bind_ok by exact Er.
  destruct Hw as (Hheap & U & M0 & HU & HM & HU0 & HU1 & HUws & HM0 & HM1 & HMws).
  erewrite bind_ok by (unfold load; rewrite HU; reflexivity).
  destruct (row_ok U i HUws) as (u & Erow & Hlenu & _); [lia|].
  erewrite bind_ok by (unfold lift; rewrite Erow; reflexivity).
  erewrite bind_ok by (unfold load; rewrite HM; reflexivity).
  destruct (column_ok M0 j HMws) as (v & Ecol & Hlenv & _); [lia|].
  erewrite bind_ok by (unfold lift; rewrite Ecol; reflexivity).
  erewrite bind_ok
    by (unfold lift; rewrite dot_ok by congruence; reflexivity).
  set (diff := fsub r _).
  destruct (for_range_invariant (fun _ (_ : unit) w' => factored w')
    latent_features
    (fun k _ => update_factors user_mat movie_mat learning_rate diff i j k)
    tt w) as (b' & w' & Eloop & Hw').
  - split; [exact Hheap|]. exists U, M0. auto 10.
  - intros k [] w0 Hk Hw0.
    destruct (update_factors_ok w0 learning_rate diff i j k Hw0 Hi Hj Hk)
      as (w1 & E1 & Hw1).
    exists tt, w1. auto.
  - erewrite bind_ok by exact Eloop. eexists _, _. split; [reflexivity|exact Hw'].
Qed.

Lemma iterate_ok w learning_rate iteration sse_accum :
  count_not_nan ratings <> 0 ->
  factored w ->
  exists sse' w',
    iterate ratings_mat user_mat movie_mat (shape0 ratings) (shape1 ratings)
      (count_not_nan ratings) latent_features learning_rate iteration
      sse_accum w = (Ok sse', w')
    /\ factored w'.
Proof.
  intros Hnum Hw. unfold iterate.
  destruct (for_range_invariant (fun _ (_ : pynum F) w' => factored w')
    (shape0 ratings)
    (fun i sse =>
       for_range (shape1 ratings) (fun j sse =>
         visit ratings_mat user_mat movie_mat latent_features learning_rate
           i j sse) sse) (PyInt 0) w Hw) as (sse & w1 & E1 & Hw1).
  { intros i sse w0 Hi Hw0.
    apply (for_range_invariant (fun _ (_ : pynum F) w' => factored w'));
      [exact Hw0|].
    intros j sse0 w2 Hj Hw2. now apply visit_ok. }
  erewrite bind_ok by exact E1.
  assert (exists mse, py_div sse (Z.of_nat (count_not_nan ratings)) = Ok mse)
    as [mse Emse].
  { unfold py_div. destruct sse as [z|f]; [|eexists; reflexivity].
    destruct (Z.eqb_spec (Z.of_nat (count_not_nan ratings)) 0); [lia|].
    eexists; reflexivity. }
  erewrite bind_ok by (unfold lift; rewrite Emse; reflexivity).
  eexists _, _. split; [reflexivity|]. exact Hw1.
Qed.

Lemma training_ok w learning_rate iters :
  iters = 0 \/ count_not_nan ratings <> 0 ->
  factored w ->
  exists sse' w',
    training ratings_mat ratings user_mat movie_mat latent_features
      learning_rate iters w = (Ok sse', w')
    /\ factored w'.
Proof.
  intros Hnum Hw. unfold training.
  erewrite bind_ok by reflexivity. erewrite bind_ok by reflexivity.
  apply (for_range_invariant (fun _ (_ : pynum F) w' => factored w')).
  - exact Hw.
  - intros i sse w0 Hi Hw0. apply iterate_ok; [|exact Hw0].
    destruct Hnum as [-> | Hnum]; [lia | exact Hnum].
Qed.

End TrainingShapes.

Section TrainingShapesTheorem.
Context {F G : Type} `{Scalar F} `{RandomState F G}.
Context `{!RandomStateLaws F G}.
Local Abbreviation world := (world F G).

Lemma initialised_factored (w : world) ratings latent_features :
  factored (heap w) ratings latent_features (length (heap w))
    (S (length (heap w))) (initialised w ratings latent_features).
Proof.
  unfold factored, initialised. simpl.
  set (drawn1 := rand (shape0 ratings) latent_features (generator w)).
  set (drawn2 := rand latent_features (shape1 ratings) drawn1.2).
  destruct (rand_shape (shape0 ratings) latent_features (generator w))
    as (HU0 & HU1 & HUws).
  destruct (rand_shape latent_features (shape1 ratings) drawn1.2)
    as (HM0 & HM1 & HMws).
  split; [rewrite <- app_assoc; apply take_app_length|].
  exists drawn1.1, drawn2.1. split.
  { rewrite <- app_assoc, lookup_app_r by lia.
    now rewrite Nat.sub_diag. }
  split.
  { rewrite lookup_app_r by (rewrite length_app; simpl; lia).
    rewrite length_app. simpl.
    now replace (S (length (heap w)) - (length (heap w) + 1)) with 0 by lia. }
  auto 10.
Qed.

(** C7, amended.  For a ratings matrix of [n_users] rows and [n_movies]
    columns with at least one entry that is not NaN (or for no iteration
    at all) and any number of latent features, [FunkSVD] returns exactly
    two factor matrices, a user matrix of shape [n_users] by
    [latent_features] and a movie matrix of shape [latent_features] by
    [n_movies]; this holds after any number of iterations. *)
Theorem FunkSVD_shapes (w : world) (ratings_mat : nat) (ratings : ndarray F)
    (latent_features : nat) (learning_rate : F) (iters : nat) :
  heap w !! ratings_mat = Some ratings ->
  well_shaped ratings ->
  iters = 0 \/ count_not_nan ratings <> 0 ->
  exists user_mat movie_mat U M w',
    FunkSVD ratings_mat latent_features learning_rate iters w
    = (Ok (user_mat, movie_mat), w')
    /\ heap w' !! user_mat = Some U
    /\ heap w' !! movie_mat = Some M
    /\ shape0 U = shape0 ratings /\ shape1 U = latent_features
    /\ well_shaped U
    /\ shape0 M = latent_features /\ shape1 M = shape1 ratings
    /\ well_shaped M.
Proof.
  intros Hr Hws Hnum.
  destruct (training_ok (heap w) ratings_mat ratings latent_features
    (length (heap w)) (S (length (heap w))) Hr Hws (Nat.le_refl _)
    (Nat.le_succ_diag_r _) (Nat.neq_succ_diag_r _)
    (initialised w ratings latent_features) learning_rate iters Hnum
    (initialised_factored w ratings latent_features))
    as (sse & w' & E & _ & U & M0 & HU & HM & Hshapes).
  exists (length (heap w)), (S (length (heap w))), U, M0, w'.
  rewrite (FunkSVD_unfold w ratings_mat ratings) by exact Hr.
  rewrite E. auto.
Qed.

End TrainingShapesTheorem.

(** ** Training: what one entry does *)

Section TrainingSteps.
Context {F G : Type} `{Scalar F} `{RandomState F G}.
Local Abbreviation world := (world F G).
Implicit Types (w : world) (a : ndarray F).

Lemma getitem_eq w l a i j x :
  heap w !! l = Some a -> item a i j = Ok x -> getitem l i j w = (Ok x, w).
Proof.
  intros Hl Ex. unfold getitem.
  erewrite bind_ok by (unfold load; rewrite Hl; reflexivity).
  unfold lift. now rewrite Ex.
Qed.

Lemma setitem_at_eq w l a i j x a' :
  heap w !! l = Some a -> setitem a i j x = Ok a' ->
  setitem_at l i j x w =
  (Ok tt, {| heap := <[l := a']> (heap w); stdout := stdout w;
             generator := generator w |}).
Proof.
  intros Hl Ea. unfold setitem_at.
  erewrite bind_ok by (unfold load; rewrite Hl; reflexivity).
  erewrite bind_ok by (unfold lift; rewrite Ea; reflexivity).
  reflexivity.
Qed.

(** Writing where a read succeeds, and reading the written value back. *)
Lemma setitem_item a i j x y :
  item a i j = Ok y ->
  exists a', setitem a i j x = Ok a' /\ item a' i j = Ok x.
Proof.
  unfold item, setitem. destruct (in_bounds a i j) eqn:Hb; [|discriminate].
  destruct (data a !! (i * shape1 a + j)) as [y'|] eqn:Hy; [|discriminate].
  intros _. eexists. split; [reflexivity|].
  unfold in_bounds in *. simpl. rewrite Hb.
  rewrite list_lookup_insert_eq by (eapply lookup_lt_Some; exact Hy).
  reflexivity.
Qed.

(** An entry that fails the test [ratings_mat[i, j] > 0] adds no error
    term and updates no factor. *)
Lemma visit_skips w ratings_mat user_mat movie_mat latent_features
    learning_rate i j sse_accum r :
  getitem ratings_mat i j w = (Ok r, w) ->
  rating_exists r = false ->
  visit ratings_mat user_mat movie_mat latent_features learning_rate i j
    sse_accum w = (Ok sse_accum, w).
Proof.
  intros Er Hr. unfold visit. erewrite bind_ok by exact Er. now rewrite Hr.
Qed.

(** X17.  One turn of the [k] loop.  The user factor moves by the
    learning rate times [2 * diff] times the movie factor; the movie factor
    then moves by the learning rate times [2 * diff] times the user factor
    as just updated. *)
Lemma update_factors_effect w user_mat movie_mat learning_rate diff i j k
    U M0 u m :
  user_mat <> movie_mat ->
  heap w !! user_mat = Some U ->
  heap w !! movie_mat = Some M0 ->
  item U i k = Ok u ->
  item M0 k j = Ok m ->
  let u' := fadd u (fmul learning_rate (fmul (fmul (of_Z 2) diff) m)) in
  let m' := fadd m (fmul learning_rate (fmul (fmul (of_Z 2) diff) u')) in
  exists U' M',
    setitem U i k u' = Ok U' /\ setitem M0 k j m' = Ok M'
    /\ update_factors user_mat movie_mat learning_rate diff i j k w =
       (Ok tt, {| heap := <[movie_mat := M']> (<[user_mat := U']> (heap w));
                  stdout := stdout w; generator := generator w |}).
Proof.
  intros Hne HU HM Eu Em u' m'.
  destruct (setitem_item U i k u' u Eu) as (U' & EU' & Eu').
  destruct (setitem_item M0 k j m' m Em) as (M' & EM' & _).
  exists U', M'. split; [exact EU'|]. split; [exact EM'|].
  unfold update_factors.
  erewrite bind_ok by (eapply getitem_eq; eassumption).
  erewrite bind_ok by (eapply getitem_eq; eassumption).
  erewrite bind_ok by (eapply setitem_at_eq; eassumption).
  set (w1 := {| heap := <[user_mat := U']> (heap w); stdout := stdout w;
                generator := generator w |}).
  assert (heap w1 !! user_mat = Some U') as HU'.
  { simpl. apply list_lookup_insert_eq. eapply lookup_lt_Some. exact HU. }
  assert (heap w1 !! movie_mat = Some M0) as HM'.
  { simpl. now rewrite list_lookup_insert_ne by exact Hne. }
  erewrite bind_ok by (eapply getitem_eq; eassumption).
  erewrite bind_ok by (eapply getitem_eq; eassumption).
  erewrite setitem_at_eq by eassumption. reflexivity.
Qed.

End TrainingSteps.

(** * The cells on concrete inputs *)

(** ** The stand-ins obey what NumPy and pandas document *)

Lemma sorted_cons v l : sorted (v :: l) <> [].
Proof.
  unfold sorted. simpl. destruct (foldr insert_sorted [] l) as [|h t];
    simpl; [discriminate|]. destruct (PrimFloat.leb v h); discriminate.
Qed.

#[export] Instance percentile_linear_laws : PercentileLaws float.
Proof.
  split.
  - intros a p Hp. unfold percentile, percentile_linear. now rewrite Hp.
  - intros p Hp. unfold percentile, percentile_linear. now rewrite Hp.
  - intros a p Ha Hp. unfold percentile, percentile_linear. rewrite Hp.
    destruct a as [|v l]; [congruence|].
    pose proof (sorted_cons v l) as Hs. destruct (sorted (v :: l));
      [congruence | eexists; reflexivity].
Qed.

#[export] Instance cursor_laws : RandomStateLaws float nat.
Proof.
  split.
  - intros n m g. simpl. repeat split.
    unfold well_shaped. simpl. now rewrite length_fmap, length_seq.
  - intros data0 n g Hn. simpl. destruct data0 as [|d0 rest].
    + destruct Hn as [-> | Hn]; [|congruence].
      split; [reflexivity | intros v Hv; exact Hv].
    + split; [now rewrite length_fmap, length_seq|].
      intros v Hv. apply list_elem_of_fmap in Hv as (k & -> & _).
      apply list_elem_of_In.
      destruct (nth_in_or_default (pick (length (d0 :: rest)) k) (d0 :: rest) d0)
        as [Hin | ->]; [exact Hin | now left].
  - intros y g. simpl. rewrite Permutation_app_comm. now rewrite take_drop.
Qed.

Lemma insert_by_perm by_ (r : review) (l : list review) :
  insert_by by_ r l ≡ₚ r :: l.
Proof.
  induction l as [|h t IH]; simpl; [reflexivity|].
  destruct (field by_ r <=? field by_ h)%Z; [reflexivity|].
  rewrite IH. apply Permutation_swap.
Qed.

#[export] Instance sort_reviews_laws : SortValuesLaws review.
Proof.
  intros df by_. unfold sort_values, sort_reviews.
  induction df as [|r df IH]; simpl; [reflexivity|].
  now rewrite insert_by_perm, IH.
Qed.

(** ** Inputs *)

Module Inputs.

Local Open Scope float_scope.

(** Six load times and the group of each. *)
Definition times : list float := [1; 2; 3; 4; 10; 7].
Definition groups : list Z := [0; 1; 0; 1; 1; 0]%Z.

(** Four reviews, out of date order. *)
Definition reviews : list review :=
  [ {| user_id := 8; movie_id := 2844; rating := 7; timestamp := 40 |};
    {| user_id := 46; movie_id := 8133; rating := 9; timestamp := 10 |};
    {| user_id := 8; movie_id := 8133; rating := 5; timestamp := 30 |};
    {| user_id := 48; movie_id := 2844; rating := 8; timestamp := 20 |} ]%Z.

(** A training frame of three users and two movies, and factors for it
    over two latent features. *)
Definition train_data_df : DataFrame :=
  {| index := [8; 46; 48]%Z; columns := [2844; 8133]%Z |}.
Definition user_matrix : ndarray float :=
  {| shape0 := 3; shape1 := 2; data := [1; 2; 0.5; 1.5; 3; 0.25] |}.
Definition movie_matrix : ndarray float :=
  {| shape0 := 2; shape1 := 2; data := [2; 1; 0.5; 4] |}.

(** A store holding one ratings matrix, nothing printed, a generator
    that has handed out nothing yet. *)
Definition fresh_world (ratings : ndarray float) : world float nat :=
  {| heap := [ratings]; stdout := []; generator := 0%nat |}.

Definition one_rating : ndarray float :=
  {| shape0 := 1; shape1 := 1; data := [3] |}.
Definition rating_and_zero : ndarray float :=
  {| shape0 := 1; shape1 := 2; data := [5; 0] |}.
Definition no_rating : ndarray float :=
  {| shape0 := 1; shape1 := 1; data := [nan] |}.

End Inputs.

Import Inputs.

(** ** Runs *)

Section Runs.
Local Open Scope float_scope.

(** The permutation test on the six load times, five trials. *)
Lemma quantile_permtest_less_run :
  length times = length groups
  /\ (0%Z ∈ groups) /\ (1%Z ∈ groups)
  /\ level_in_range (100 * 0.5) = true
  /\ exists p,
       quantile_permtest times groups 0.5 "less" 5%Z 0%nat
       = (Ok p, (draws (permutation groups) 5 0%nat).2)
       /\ in_unit_interval p.
Proof.
  assert (0%Z ∈ groups) as Hzero by left.
  assert (1%Z ∈ groups) as Hone by (right; left).
  split; [reflexivity|]. split; [exact Hzero|]. split; [exact Hone|].
  split; [reflexivity|].
  destruct (quantile_permtest_p_value times groups 0.5 "less" 5%Z 0%nat)
    as (_ & ds & obs & _ & _ & _ & Hrun & Hunit);
    [reflexivity | exact Hzero | exact Hone | reflexivity | left; reflexivity
    | lia |].
  eexists. split; [exact Hrun | exact Hunit].
Defined.

(** With no trial at all the p-value is [0 / 0]. *)
Lemma quantile_permtest_no_trial :
  quantile_permtest times groups 0.5 "less" 0%Z 0%nat = (Ok NotANumber, 0%nat)
  /\ ~ in_unit_interval NotANumber.
Proof. split; [reflexivity | intros []]. Qed.

(** A bootstrap interval from five resamples of five points. *)
Lemma quantile_ci_run :
  [1; 2; 3; 4; 10] <> []
  /\ level_in_range (100 * 0.5) = true
  /\ level_in_range ((1 - 0.5) / 2 * 100) = true
  /\ level_in_range ((1 + 0.5) / 2 * 100) = true
  /\ exists ci,
       quantile_ci [1; 2; 3; 4; 10] 0.5 0.5 5%Z 0%nat
       = (Ok ci, (draws (choice [1; 2; 3; 4; 10] 5) 5 0%nat).2).
Proof.
  split; [discriminate|]. do 3 (split; [reflexivity|]).
  destruct (quantile_ci_bootstrap [1; 2; 3; 4; 10] 0.5 0.5 5 0%nat)
    as (_ & _ & qs & lower & upper & _ & _ & _ & Hrun);
    [discriminate | lia | reflexivity | reflexivity | reflexivity |].
  eexists. exact Hrun.
Defined.

(** With no trial there is no sampled quantile to take a percentile of. *)
Lemma quantile_ci_no_trial :
  quantile_ci [1; 2; 3; 4; 10] 0.5 0.5 0%Z 0%nat = (Raise IndexError, 0%nat).
Proof. reflexivity. Qed.

(** A two-sided alternative is not one the cell knows. *)
Lemma quantile_permtest_two_sided_run :
  "two-sided" <> "less" /\ "two-sided" <> "greater"
  /\ length times = length groups
  /\ (0%Z ∈ groups) /\ (1%Z ∈ groups)
  /\ level_in_range (100 * 0.5) = true
  /\ (quantile_permtest times groups 0.5 "two-sided" 5%Z 0%nat).1
     = Raise UnboundLocalError.
Proof.
  assert (0%Z ∈ groups) as Hzero by left.
  assert (1%Z ∈ groups) as Hone by (right; left).
  split; [discriminate|]. split; [discriminate|]. split; [reflexivity|].
  split; [exact Hzero|]. split; [exact Hone|]. split; [reflexivity|].
  apply (quantile_permtest_other_alternative times groups 0.5 "two-sided"
           5%Z 0%nat); [discriminate | discriminate | reflexivity
           | exact Hzero | exact Hone | reflexivity].
Defined.

(** Two training rows and one validation row out of four reviews. *)
Lemma create_train_test_run :
  (0 <= 2)%Z /\ (0 <= 1)%Z
  /\ (create_train_test reviews "timestamp" 2 1).1
     = take 2 (sort_values reviews "timestamp")
  /\ (create_train_test reviews "timestamp" 2 1).2
     = take 1 (drop 2 (sort_values reviews "timestamp")).
Proof.
  split; [lia|]. split; [lia|].
  destruct (create_train_test_split reviews "timestamp" 2 1)
    as (Htrain & Hval & _); [lia | lia |].
  split; [exact Htrain | exact Hval].
Defined.

(** User 46 and movie 8133 are both in the training frame. *)
Lemma predict_rating_run :
  (46%Z ∈ index train_data_df) /\ (8133%Z ∈ columns train_data_df)
  /\ exists pred,
       predict_rating train_data_df user_matrix movie_matrix 46 8133
       = Ok pred.
Proof.
  assert (46%Z ∈ index train_data_df) as Hu by (right; left).
  assert (8133%Z ∈ columns train_data_df) as Hm by (right; left).
  split; [exact Hu|]. split; [exact Hm|].
  destruct (predict_rating_dot train_data_df user_matrix movie_matrix 46 8133)
    as (r & c & u & v & _ & _ & _ & _ & _ & Hrun);
    [exact Hu | exact Hm | reflexivity | reflexivity | reflexivity
    | reflexivity | reflexivity |].
  eexists. exact Hrun.
Defined.

(** Movie 103639 has no rating in the training frame. *)
Lemma predict_rating_absent_run :
  (103639%Z ∉ columns train_data_df)
  /\ predict_rating train_data_df user_matrix movie_matrix 46 103639
     = Raise IndexError.
Proof.
  assert (103639%Z ∉ columns train_data_df) as Hm.
  { intros Hin. repeat (apply elem_of_cons in Hin as [Hin | Hin];
      [discriminate|]). now apply elem_of_nil in Hin. }
  split; [exact Hm|].
  apply (predict_rating_partial train_data_df user_matrix movie_matrix 46
           103639 (or_intror Hm)).
Defined.

(** Training on a single rating. *)
Lemma FunkSVD_shapes_run :
  heap (fresh_world one_rating) !! 0%nat = Some one_rating
  /\ well_shaped one_rating
  /\ count_not_nan one_rating <> 0%nat
  /\ exists factors w',
       FunkSVD 0 2 0.25 3 (fresh_world one_rating) = (Ok factors, w').
Proof.
  assert (count_not_nan one_rating <> 0%nat) as Hnum by discriminate.
  split; [reflexivity|]. split; [reflexivity|]. split; [exact Hnum|].
  destruct (FunkSVD_shapes (fresh_world one_rating) 0 one_rating 2 0.25 3)
    as (user_mat & movie_mat & U & M0 & w' & Hrun & _);
    [reflexivity | reflexivity | right; exact Hnum |].
  exists (user_mat, movie_mat), w'. exact Hrun.
Defined.

(** A ratings matrix without a rating: the first progress line divides
    the int 0 by the int 0. *)
Lemma FunkSVD_no_rating_run :
  heap (fresh_world no_rating) !! 0%nat = Some no_rating
  /\ well_shaped no_rating
  /\ (FunkSVD 0 1 0.25 1 (fresh_world no_rating)).1 = Raise ZeroDivisionError.
Proof. repeat split. Qed.

(** The two [np.random.rand] calls move the global generator. *)
Lemma FunkSVD_generator_run :
  generator (fresh_world one_rating) = 0%nat
  /\ generator (FunkSVD 0 1 0.25 1 (fresh_world one_rating)).2 = 2%nat
  /\ stdout (fresh_world one_rating) = []
  /\ heap (FunkSVD 0 1 0.25 1 (fresh_world one_rating)).2 !! 0%nat
     = Some one_rating.
Proof. repeat split. Qed.

(** C2 on the ratings matrix [[3.0]], one latent feature, learning rate
    0.25, one iteration, [np.random.rand] drawing 0.171875 for the user
    factor and 0.75 for the movie factor: the movie factor is moved along
    the user factor as already updated, not along the one held before
    the entry's update began. *)
Lemma FunkSVD_movie_update_run :
  let u := 0.171875 in
  let m := 0.75 in
  let diff := 3 - (0 + u * m) in
  let u' := u + 0.25 * (2 * diff * m) in
  let run := FunkSVD 0 1 0.25 1 (fresh_world one_rating) in
  run.1 = Ok (1%nat, 2%nat)
  /\ heap run.2 !! 1%nat
     = Some {| shape0 := 1; shape1 := 1; data := [u'] |}
  /\ heap run.2 !! 2%nat
     = Some {| shape0 := 1; shape1 := 1;
               data := [m + 0.25 * (2 * diff * u')] |}
  /\ PrimFloat.eqb (m + 0.25 * (2 * diff * u')) (m + 0.25 * (2 * diff * u))
     = false.
Proof. vm_compute. repeat split. Qed.

(** C1 on the ratings matrix [[5.0, 0.0]]: two entries are counted as
    ratings, one drives an update, and the progress line divides the
    squared error of that one entry by two. *)
Lemma FunkSVD_rating_count_run :
  let u := 0.171875 in
  let m := 0.75 in
  let diff := 5 - (0 + u * m) in
  count_not_nan rating_and_zero = 2%nat
  /\ length (List.filter rating_exists (data rating_and_zero)) = 1%nat
  /\ stdout (FunkSVD 0 1 0.25 1 (fresh_world rating_and_zero)).2
     = [ Text "Optimizaiton Statistics";
         Text "Iterations | Mean Squared Error ";
         Progress 1 ((0 + diff * diff) / 2) ].
Proof. vm_compute. repeat split. Qed.

End Runs.


(** * Further properties of the two notebooks *)

From stdpp Require Import sorting.

(** ** More on the train and validation split *)

(** [a]'s value in the column [by_] is at most [b]'s: the order
    [sort_values] sorts by. *)
Class ColumnOrder (Row : Type) : Type :=
  column_le : string -> Row -> Row -> Prop.

(** [sort_values] sorts in ascending order of the column. *)
Class SortValuesOrder (Row : Type) `{SortValues Row} `{ColumnOrder Row}
  : Prop :=
  sort_values_sorted : forall (df : list Row) by_,
    StronglySorted (column_le by_) (sort_values df by_).

Section SplitFurther.
Context {Row : Type} `{SortValues Row}.
Implicit Types (df : list Row).

(** Whatever the integers, the two sets are cut at these two row counts. *)
Definition training_rows (len : nat) (training_size : Z) : nat :=
  slice_bound len training_size.
Definition validation_rows (len : nat) (training_size testing_size : Z)
  : nat :=
  slice_bound len (training_size + testing_size)
  - slice_bound len training_size.

Lemma head_slice_bound df (n : Z) :
  MatrixFactorization.head df n = take (slice_bound (length df) n) df.
Proof.
  unfold MatrixFactorization.head, slice_bound.
  destruct (Z.leb_spec 0 n), (Z.ltb_spec n 0); try lia.
  - destruct (Nat.le_gt_cases (Z.to_nat n) (length df)).
    + now rewrite Nat.min_l.
    + rewrite Nat.min_r by lia. now rewrite !take_ge by lia.
  - f_equal. lia.
Qed.

Lemma create_train_test_cut (reviews : list Row) order_by (t s : Z) :
  let reviews_new := sort_values reviews order_by in
  create_train_test reviews order_by t s =
  (take (training_rows (length reviews_new) t) reviews_new,
   take (validation_rows (length reviews_new) t s)
     (drop (training_rows (length reviews_new) t) reviews_new)).
Proof.
  cbv zeta. unfold create_train_test, iloc. now rewrite head_slice_bound.
Qed.

Lemma create_train_test_decompose (reviews : list Row) order_by (t s : Z) :
  exists rest,
    sort_values reviews order_by =
    (create_train_test reviews order_by t s).1
    ++ (create_train_test reviews order_by t s).2 ++ rest.
Proof.
  rewrite create_train_test_cut. simpl.
  eexists. now rewrite (take_drop (validation_rows _ _ _)), take_drop.
Qed.

(** X2.  For all integer sizes, negative ones included, the training set
    and the validation set are two consecutive segments of the sorted
    frame, the training set first; and each of their rows is a row of the
    reviews. *)
Theorem create_train_test_segments `{!SortValuesLaws Row}
    (reviews : list Row) (order_by : string) (training_size testing_size : Z) :
  let split := create_train_test reviews order_by training_size testing_size in
  (exists rest, sort_values reviews order_by = split.1 ++ split.2 ++ rest)
  /\ (forall r, r ∈ split.1 \/ r ∈ split.2 -> r ∈ reviews).
Proof.
  cbv zeta.
  destruct (create_train_test_decompose reviews order_by training_size
              testing_size) as [rest Hrest].
  split; [exists rest; exact Hrest|].
  intros r Hr.
  rewrite <- (sort_values_perm reviews order_by), Hrest.
  rewrite !elem_of_app. tauto.
Qed.

(** X1.  For non-negative sizes the training set has [training_size] rows,
    or all the rows when there are fewer, and the validation set has
    [testing_size] rows, or the rows that are left.  On a frame of at least
    [training_size + testing_size] rows the two sets have exactly the sizes
    asked for, as the notebook asserts of its 8000 and 2000 rows. *)
Theorem create_train_test_sizes `{!SortValuesLaws Row}
    (reviews : list Row) (order_by : string) (training_size testing_size : Z) :
  (0 <= training_size)%Z ->
  (0 <= testing_size)%Z ->
  let split := create_train_test reviews order_by training_size testing_size in
  length split.1 = Nat.min (Z.to_nat training_size) (length reviews)
  /\ length split.2 =
     Nat.min (Z.to_nat testing_size) (length reviews - Z.to_nat training_size)
  /\ ((training_size + testing_size <= Z.of_nat (length reviews))%Z ->
      length split.1 = Z.to_nat training_size
      /\ length split.2 = Z.to_nat testing_size).
Proof.
  intros Ht Hs. cbv zeta. rewrite create_train_test_cut. simpl.
  rewrite !length_take, length_drop.
  rewrite (Permutation_length (sort_values_perm reviews order_by)).
  unfold training_rows, validation_rows, slice_bound.
  destruct (Z.ltb_spec training_size 0); [lia|].
  destruct (Z.ltb_spec (training_size + testing_size) 0); [lia|].
  lia.
Qed.

(** X3.  The validation set is held out in sort order: no row of the
    validation set sorts before a row of the training set, whatever the
    sizes. *)
Theorem create_train_test_ordered `{ColumnOrder Row} `{!SortValuesOrder Row}
    (reviews : list Row) (order_by : string) (training_size testing_size : Z) :
  forall a b,
    a ∈ (create_train_test reviews order_by training_size testing_size).1 ->
    b ∈ (create_train_test reviews order_by training_size testing_size).2 ->
    column_le order_by a b.
Proof.
  intros a b Ha Hb.
  destruct (create_train_test_decompose reviews order_by training_size
              testing_size) as [rest Hrest].
  pose proof (sort_values_sorted reviews order_by) as Hsorted.
  rewrite Hrest in Hsorted.
  eapply StronglySorted_app_1_elem_of; [exact Hsorted | exact Ha|].
  apply elem_of_app. now left.
Qed.

End SplitFurther.

(** ** More on the non-parametric cells *)

Section PermtestFurther.
Context {F G : Type} `{Scalar F} `{Percentile F} `{RandomState F G}.
Context `{!PercentileLaws F} `{!RandomStateLaws F G}.

Lemma quantile_diff_mismatch (x : list F) labels q :
  length labels <> length x -> quantile_diff x labels q = Raise IndexError.
Proof.
  intros Hne. unfold quantile_diff, mask_eq.
  destruct (Nat.eqb_spec (length labels) (length x)); [contradiction|].
  reflexivity.
Qed.

(** A loop whose first turn raises. *)
Lemma for_range_first_raises {St B} (body : nat -> B -> M St B) n b s e s' :
  body 0 b s = (Raise e, s') -> for_range (S n) body b s = (Raise e, s').
Proof.
  intros E. unfold for_range. simpl. unfold bind. now rewrite E.
Qed.

(** X4.  On a data array and a label array of different lengths the call
    raises [IndexError], from the boolean mask of the first trial or, with
    no trial, of the observed statistic: no p-value is returned and the
    [alternative] is never looked at. *)
Theorem quantile_permtest_length_mismatch (x : list F) (y : list Z) (q : F)
    (alternative : string) (n_trials : Z) (g : G) :
  length x <> length y ->
  (quantile_permtest x y q alternative n_trials g).1 = Raise IndexError.
Proof.
  intros Hne. unfold quantile_permtest.
  destruct (Z.to_nat n_trials) as [|n].
  - erewrite bind_ok by reflexivity.
    erewrite bind_raise; [reflexivity|].
    unfold lift. rewrite quantile_diff_mismatch by congruence. reflexivity.
  - erewrite bind_raise; [reflexivity|].
    apply for_range_first_raises.
    erewrite bind_ok by reflexivity.
    erewrite bind_raise; [reflexivity|].
    unfold lift. rewrite quantile_diff_mismatch; [reflexivity|].
    rewrite (Permutation_length (permutation_perm y g)). congruence.
Qed.

Lemma count_le_ge_cover (l : list F) (v : F) :
  Forall (fun d => fle d v || fle v d = true) l ->
  length l <= count_le l v + count_ge l v.
Proof.
  unfold count_le, count_ge. induction 1 as [|d l Hd _ IH]; simpl; [lia|].
  destruct (fle d v), (fle v d); simpl in *; try discriminate; lia.
Qed.

(** X5.  On arrays of the same length with both labels present and a
    level [100 * q] within [0, 100], from one state of the generator the
    two alternatives see the same permuted differences, those under the
    successive results of [np.random.permutation(y)], and when each of
    them compares with the observed difference (none is NaN) the two hit
    counts together cover every trial: the "less" and the "greater"
    p-value sum to at least 1. *)
Theorem quantile_permtest_two_tails (x : list F) (y : list Z) (q : F)
    (n_trials : Z) (g : G) :
  length x = length y ->
  (0%Z ∈ y) ->
  (1%Z ∈ y) ->
  level_in_range (fmul (of_Z 100) q) = true ->
  (0 < n_trials)%Z ->
  let drawn := draws (permutation y) (Z.to_nat n_trials) g in
  exists sample_diffs obs_diff,
    Forall2 (fun labels d => quantile_diff x labels q = Ok d)
      drawn.1 sample_diffs
    /\ quantile_diff x y q = Ok obs_diff
    /\ quantile_permtest x y q "less" n_trials g =
       (Ok (Finite (inject_Z (Z.of_nat (count_le sample_diffs obs_diff))
                    / inject_Z n_trials)), drawn.2)
    /\ quantile_permtest x y q "greater" n_trials g =
       (Ok (Finite (inject_Z (Z.of_nat (count_ge sample_diffs obs_diff))
                    / inject_Z n_trials)), drawn.2)
    /\ (Forall (fun d => fle d obs_diff || fle obs_diff d = true) sample_diffs ->
        (n_trials <= Z.of_nat (count_le sample_diffs obs_diff)
                     + Z.of_nat (count_ge sample_diffs obs_diff))%Z).
Proof.
  intros Hxy Hzero Hone Hq Hpos. cbv zeta.
  destruct (permtest_loop x y q (Z.to_nat n_trials) g Hxy Hzero Hone Hq)
    as (ds & E & Hds).
  destruct (quantile_diff_ok x y q) as [obs Hobs]; auto.
  assert (length ds = Z.to_nat n_trials) as Hlen.
  { apply Forall2_length in Hds. now rewrite draws_length in Hds. }
  exists ds, obs. split; [exact Hds|]. split; [exact Hobs|].
  assert (forall hits, hits <= length ds ->
            true_divide (Z.of_nat hits) n_trials
            = Finite (inject_Z (Z.of_nat hits) / inject_Z n_trials)) as Hdiv.
  { intros hits Hhits. apply true_divide_unit; lia. }
  split; [|split].
  - unfold quantile_permtest. erewrite bind_ok by exact E.
    erewrite bind_ok by (unfold lift; rewrite Hobs; reflexivity).
    simpl. unfold mret, M_ret, ret. now rewrite Hdiv by apply count_le_bound.
  - unfold quantile_permtest. erewrite bind_ok by exact E.
    erewrite bind_ok by (unfold lift; rewrite Hobs; reflexivity).
    simpl. unfold mret, M_ret, ret. now rewrite Hdiv by apply count_ge_bound.
  - intros Hcmp. pose proof (count_le_ge_cover ds obs Hcmp). lia.
Qed.

(** A label that does not occur selects nothing. *)
Lemma mask_eq_absent (x : list F) labels v :
  length labels = length x -> v ∉ labels -> mask_eq x labels v = Ok [].
Proof.
  intros E Hv. unfold mask_eq. rewrite E, Nat.eqb_refl. f_equal.
  revert x E. induction labels as [|l labels IH]; intros x E.
  - now destruct x.
  - destruct x as [|x0 x]; [discriminate|]. simpl.
    apply not_elem_of_cons in Hv as [Hne Hv].
    destruct (Z.eqb_spec l v) as [-> | _]; [congruence|].
    apply IH; [exact Hv | now injection E].
Qed.

Lemma quantile_diff_absent (x : list F) labels q :
  length labels = length x ->
  (0%Z ∉ labels) \/ (1%Z ∉ labels) ->
  level_in_range (fmul (of_Z 100) q) = true ->
  quantile_diff x labels q = Raise IndexError.
Proof.
  intros E Habsent Hq. unfold quantile_diff.
  destruct (mask_eq_ok x labels 0%Z E) as [g0 E0]. rewrite E0. simpl.
  destruct g0 as [|v0 g0].
  - now rewrite percentile_empty.
  - destruct Habsent as [Hzero | Hone].
    + rewrite (mask_eq_absent x labels 0%Z E Hzero) in E0. discriminate.
    + destruct (percentile_value (v0 :: g0) (fmul (of_Z 100) q)) as [c0 Ec];
        [discriminate | exact Hq |].
      rewrite Ec. simpl. rewrite (mask_eq_absent x labels 1%Z E Hone). simpl.
      now rewrite percentile_empty.
Qed.

Lemma quantile_diff_level (x : list F) labels q :
  length labels = length x ->
  level_in_range (fmul (of_Z 100) q) = false ->
  quantile_diff x labels q = Raise ValueError.
Proof.
  intros E Hq. unfold quantile_diff.
  destruct (mask_eq_ok x labels 0%Z E) as [g0 ->]. simpl.
  now rewrite percentile_level.
Qed.

(** What every relabelling raises, the call raises: in the first trial
    or, with no trial, at the observed statistic. *)
Lemma quantile_permtest_raises (x : list F) (y : list Z) (q : F)
    (alternative : string) (n_trials : Z) (g : G) e :
  (forall labels, labels ≡ₚ y -> quantile_diff x labels q = Raise e) ->
  (quantile_permtest x y q alternative n_trials g).1 = Raise e.
Proof.
  intros Hd. unfold quantile_permtest.
  destruct (Z.to_nat n_trials) as [|n].
  - erewrite bind_ok by reflexivity.
    erewrite bind_raise; [reflexivity|].
    unfold lift. now rewrite Hd.
  - erewrite bind_raise; [reflexivity|].
    apply for_range_first_raises.
    erewrite bind_ok by reflexivity.
    erewrite bind_raise; [reflexivity|].
    unfold lift. rewrite Hd; [reflexivity | apply permutation_perm].
Qed.

(** X19.  When one of the labels 0 and 1 does not occur in [y] (the
    arrays being of the same length and the level [100 * q] within
    [0, 100]), [quantile_permtest] returns no p-value: [np.percentile]
    raises [IndexError] on the empty group, whatever the [alternative]
    and the number of trials. *)
Theorem quantile_permtest_empty_group (x : list F) (y : list Z) (q : F)
    (alternative : string) (n_trials : Z) (g : G) :
  length x = length y ->
  (0%Z ∉ y) \/ (1%Z ∉ y) ->
  level_in_range (fmul (of_Z 100) q) = true ->
  (quantile_permtest x y q alternative n_trials g).1 = Raise IndexError.
Proof.
  intros Hxy Habsent Hq. apply quantile_permtest_raises.
  intros labels Hperm. apply quantile_diff_absent; [| |exact Hq].
  - rewrite (Permutation_length Hperm). now symmetry.
  - now rewrite Hperm.
Qed.

(** X20.  On arrays of the same length, a quantile [q] whose level
    [100 * q] fails the check of [np.percentile] (it is outside [0, 100],
    or NaN) makes [quantile_permtest] raise [ValueError], whatever the
    labels, the [alternative] and the number of trials. *)
Theorem quantile_permtest_level_error (x : list F) (y : list Z) (q : F)
    (alternative : string) (n_trials : Z) (g : G) :
  length x = length y ->
  level_in_range (fmul (of_Z 100) q) = false ->
  (quantile_permtest x y q alternative n_trials g).1 = Raise ValueError.
Proof.
  intros Hxy Hq. apply quantile_permtest_raises.
  intros labels Hperm. apply quantile_diff_level; [|exact Hq].
  rewrite (Permutation_length Hperm). now symmetry.
Qed.

(** X21.  With no trial ([n_trials <= 0]) [quantile_ci] returns no
    interval: no sample is drawn, the generator is left as it was, and
    the percentile of the empty list of sampled quantiles raises
    [IndexError] (the level [(1 - c)/2 * 100] being within [0, 100]). *)
Theorem quantile_ci_no_trials (data0 : list F) (q c : F) (n_trials : Z)
    (g : G) :
  (n_trials <= 0)%Z ->
  level_in_range (fmul (fdiv (fsub (of_Z 1) c) (of_Z 2)) (of_Z 100)) = true ->
  quantile_ci data0 q c n_trials g = (Raise IndexError, g).
Proof.
  intros Hn Hlo. unfold quantile_ci.
  replace (Z.to_nat n_trials) with 0 by lia.
  erewrite bind_ok by reflexivity.
  erewrite bind_raise; [reflexivity|].
  unfold lift. now rewrite percentile_empty.
Qed.

End PermtestFurther.

(** ** The comparison of predictions with the validation set *)

Module Validation.

(** Python's [round(pred)] on a NumPy float, kept abstract. *)
Class Rounding (F : Type) : Type :=
  pyround : F -> F.

(** A row of [val_df], by the three columns the cell reads. *)
Record validation_row : Type := {
  val_user_id : Z;
  val_movie_id : Z;
  val_rating : Z
}.

(** [a[idx]] on a one-dimensional array, [idx] non-negative. *)
Definition element {A} (a : list A) (idx : nat) : result A :=
  match a !! idx with
  | Some v => Ok v
  | None => Raise IndexError
  end.

Section Cell.
Context {F : Type} `{Scalar F} `{Rounding F}.

(** The line one turn prints, by the four arguments of its format. *)
Inductive comparison : Type :=
| Comparison (user movie rating : Z) (rounded : F).

(** [def validation_comparison(val_df, num_preds)], the globals
    [train_data_df], [user_mat] and [movie_mat] made arguments and the
    state being the lines printed.  The format rereads [val_users[idx]]
    and [val_movies[idx]], which the call of [predict_rating] has read. *)
Definition print_comparison (ln : comparison) : M (list comparison) unit :=
  fun out => (Ok tt, out ++ [ln]).

Definition validation_comparison (train_data_df : DataFrame)
    (user_mat movie_mat : ndarray F) (val_df : list validation_row)
    (num_preds : Z) : M (list comparison) unit :=
  let val_users : list Z := val_user_id <$> val_df in
  let val_movies : list Z := val_movie_id <$> val_df in
  let val_ratings : list Z := val_rating <$> val_df in
  for_range (Z.to_nat num_preds) (fun idx _ =>
    user ← lift (element val_users idx);
    movie ← lift (element val_movies idx);
    pred ← lift (predict_rating train_data_df user_mat movie_mat user movie);
    rating ← lift (element val_ratings idx);
    print_comparison (Comparison user movie rating (pyround pred))) tt.

End Cell.

Arguments comparison F : clear implicits.

End Validation.

Import Validation.

(** A loop that raises at turn [k], the turns before it succeeding. *)
Lemma for_range_raises_at {St B} (I : nat -> B -> St -> Prop)
    (Q : St -> Prop) (body : nat -> B -> M St B) n k b s e :
  k < n ->
  I 0 b s ->
  (forall i b s, i < k -> I i b s ->
     exists b' s', body i b s = (Ok b', s') /\ I (S i) b' s') ->
  (forall b s, I k b s -> exists s', body k b s = (Raise e, s') /\ Q s') ->
  exists s', for_range n body b s = (Raise e, s') /\ Q s'.
Proof.
  intros Hk H0 Hbefore Hat.
  destruct (for_range_invariant I k body b s H0 Hbefore) as (b1 & s1 & E1 & I1).
  destruct (Hat b1 s1 I1) as (s2 & E2 & Q2).
  exists s2. split; [|exact Q2].
  unfold for_range in *. replace n with (k + S (n - S k)) by lia.
  rewrite seq_app, for_each_app, E1. simpl. unfold bind. now rewrite E2.
Qed.

Section ValidationFacts.
Context {F : Type} `{Scalar F} `{Rounding F}.
Implicit Types (val_df : list validation_row).

(** Factor matrices that fit the training frame. *)
Definition conformant (train_data_df : DataFrame)
    (user_mat movie_mat : ndarray F) : Prop :=
  well_shaped user_mat /\ well_shaped movie_mat
  /\ shape0 user_mat = length (index train_data_df)
  /\ shape1 movie_mat = length (columns train_data_df)
  /\ shape1 user_mat = shape0 movie_mat.

Lemma predict_rating_defined train_data_df (user_mat movie_mat : ndarray F)
    (user movie : Z) :
  conformant train_data_df user_mat movie_mat ->
  user ∈ index train_data_df -> movie ∈ columns train_data_df ->
  exists pred,
    predict_rating train_data_df user_mat movie_mat user movie = Ok pred.
Proof.
  intros (HwsU & HwsM & HrowsU & HcolsM & Hlatent) Hu Hm.
  destruct (first_match _ _ Hu) as (user_row & Eu & Hur & _).
  destruct (first_match _ _ Hm) as (movie_col & Em & Hmc & _).
  destruct (row_ok user_mat user_row HwsU) as (u & Erow & Hlenu & _).
  { rewrite HrowsU. eapply lookup_lt_Some. exact Hur. }
  destruct (column_ok movie_mat movie_col HwsM) as (v & Ecol & Hlenv & _).
  { rewrite HcolsM. eapply lookup_lt_Some. exact Hmc. }
  eexists. unfold predict_rating. rewrite Eu. simpl. rewrite Em. simpl.
  rewrite Erow. simpl. rewrite Ecol. simpl.
  rewrite dot_ok by congruence. reflexivity.
Qed.

Lemma predict_rating_absent train_data_df (user_mat movie_mat : ndarray F)
    (user movie : Z) :
  user ∉ index train_data_df \/ movie ∉ columns train_data_df ->
  predict_rating train_data_df user_mat movie_mat user movie
  = Raise IndexError.
Proof.
  intros Habsent. unfold predict_rating.
  destruct (first_item (where_eq (index train_data_df) user))
    as [user_row|e] eqn:Eu.
  - destruct Habsent as [Hu | Hm].
    + rewrite (no_match _ _ Hu) in Eu. discriminate.
    + simpl. now rewrite (no_match _ _ Hm).
  - simpl. unfold first_item in Eu.
    destruct (where_eq (index train_data_df) user); congruence.
Qed.

(** The lines of the rows [0 .. n - 1], each with the rounded prediction
    of its row. *)
Definition compared (train_data_df : DataFrame) (user_mat movie_mat : ndarray F)
    val_df (n : nat) (lines : list (comparison F)) : Prop :=
  length lines = n
  /\ forall idx row, idx < n -> val_df !! idx = Some row ->
       exists pred,
         predict_rating train_data_df user_mat movie_mat
           (val_user_id row) (val_movie_id row) = Ok pred
         /\ lines !! idx
            = Some (Comparison (val_user_id row) (val_movie_id row)
                      (val_rating row) (pyround pred)).

Lemma element_fmap {A B} (f : A -> B) (l : list A) idx a :
  l !! idx = Some a -> element (f <$> l) idx = Ok (f a).
Proof. intros E. unfold element. now rewrite list_lookup_fmap, E. Qed.

Lemma element_out_of_range {A} (l : list A) idx :
  length l <= idx -> element l idx = Raise IndexError.
Proof. intros Hlen. unfold element. now rewrite lookup_ge_None_2. Qed.

(** One turn on a row that has a prediction. *)
Lemma comparison_turn train_data_df (user_mat movie_mat : ndarray F) val_df
    idx row pred out :
  val_df !! idx = Some row ->
  predict_rating train_data_df user_mat movie_mat (val_user_id row)
    (val_movie_id row) = Ok pred ->
  (user ← lift (element (val_user_id <$> val_df) idx);
   movie ← lift (element (val_movie_id <$> val_df) idx);
   pred ← lift (predict_rating train_data_df user_mat movie_mat user movie);
   rating ← lift (element (val_rating <$> val_df) idx);
   print_comparison (Comparison user movie rating (pyround pred))) out
  = (Ok tt, out ++ [Comparison (val_user_id row) (val_movie_id row)
                      (val_rating row) (pyround pred)]).
Proof.
  intros Hrow Hpred.
  unfold mbind, M_bind, bind, lift.
  rewrite !(element_fmap _ _ _ _ Hrow), Hpred. reflexivity.
Qed.

Lemma compared_snoc train_data_df (user_mat movie_mat : ndarray F) val_df n
    lines row pred :
  compared train_data_df user_mat movie_mat val_df n lines ->
  val_df !! n = Some row ->
  predict_rating train_data_df user_mat movie_mat (val_user_id row)
    (val_movie_id row) = Ok pred ->
  compared train_data_df user_mat movie_mat val_df (S n)
    (lines ++ [Comparison (val_user_id row) (val_movie_id row)
                 (val_rating row) (pyround pred)]).
Proof.
  intros [Hlen Hlines] Hrow Hpred. split.
  - rewrite length_app. simpl. lia.
  - intros idx row' Hidx Hrow'.
    destruct (Nat.eq_dec idx n) as [-> | Hne].
    + assert (row' = row) as -> by congruence.
      exists pred. split; [exact Hpred|].
      rewrite lookup_app_r by lia. now rewrite Hlen, Nat.sub_diag.
    + destruct (Hlines idx row' ltac:(lia) Hrow') as (p & Hp & Hline).
      exists p. split; [exact Hp|].
      rewrite lookup_app_l by lia. exact Hline.
Qed.

(** The turns [0 .. k - 1] when each of these rows has a prediction. *)
Lemma comparison_turns train_data_df (user_mat movie_mat : ndarray F) val_df
    k out :
  k <= length val_df ->
  (forall idx row, idx < k -> val_df !! idx = Some row ->
     exists pred,
       predict_rating train_data_df user_mat movie_mat (val_user_id row)
         (val_movie_id row) = Ok pred) ->
  forall i (b : unit) (s : list (comparison F)),
    i < k ->
    (exists lines, s = out ++ lines
       /\ compared train_data_df user_mat movie_mat val_df i lines) ->
    exists b' s',
      (user ← lift (element (val_user_id <$> val_df) i);
       movie ← lift (element (val_movie_id <$> val_df) i);
       pred ← lift (predict_rating train_data_df user_mat movie_mat user movie);
       rating ← lift (element (val_rating <$> val_df) i);
       print_comparison (Comparison user movie rating (pyround pred))) s
      = (Ok b', s')
      /\ (exists lines, s' = out ++ lines
            /\ compared train_data_df user_mat movie_mat val_df (S i) lines).
Proof.
  intros Hk Hpredictable i b s Hi (lines & -> & Hlines).
  destruct (lookup_lt_is_Some_2 val_df i) as [row Hrow]; [lia|].
  destruct (Hpredictable i row Hi Hrow) as [pred Hpred].
  eexists tt, _. split; [apply (comparison_turn _ _ _ _ _ _ _ _ Hrow Hpred)|].
  eexists. split; [now rewrite <- app_assoc|].
  now apply compared_snoc.
Qed.

End ValidationFacts.

Section ValidationTheorems.
Context {F : Type} `{Scalar F} `{Rounding F}.
Implicit Types (val_df : list validation_row).

(** Every row before [k] names a user and a movie of the training frame. *)
Definition known_before (train_data_df : DataFrame) val_df (k : nat) : Prop :=
  forall idx row, idx < k -> val_df !! idx = Some row ->
    val_user_id row ∈ index train_data_df
    /\ val_movie_id row ∈ columns train_data_df.

Lemma known_predictable train_data_df (user_mat movie_mat : ndarray F) val_df k :
  conformant train_data_df user_mat movie_mat ->
  known_before train_data_df val_df k ->
  forall idx row, idx < k -> val_df !! idx = Some row ->
    exists pred,
      predict_rating train_data_df user_mat movie_mat (val_user_id row)
        (val_movie_id row) = Ok pred.
Proof.
  intros Hfit Hknown idx row Hidx Hrow.
  destruct (Hknown idx row Hidx Hrow) as [Hu Hm].
  now apply predict_rating_defined.
Qed.

(** X6.  When the first [num_preds] validation rows all name a user and a
    movie of the training frame, [validation_comparison] prints one line a
    row, in row order, each with the row's user, movie and rating and the
    rounded prediction for them, and returns. *)
Theorem validation_comparison_prints (train_data_df : DataFrame)
    (user_mat movie_mat : ndarray F) val_df (num_preds : Z)
    (out : list (comparison F)) :
  conformant train_data_df user_mat movie_mat ->
  Z.to_nat num_preds <= length val_df ->
  known_before train_data_df val_df (Z.to_nat num_preds) ->
  exists lines,
    validation_comparison train_data_df user_mat movie_mat val_df num_preds out
    = (Ok tt, out ++ lines)
    /\ compared train_data_df user_mat movie_mat val_df (Z.to_nat num_preds)
         lines.
Proof.
  intros Hfit Hlen Hknown. unfold validation_comparison.
  destruct (for_range_invariant
    (fun i (_ : unit) s => exists lines, s = out ++ lines
       /\ compared train_data_df user_mat movie_mat val_df i lines)
    (Z.to_nat num_preds)
    (fun idx _ =>
       user ← lift (element (val_user_id <$> val_df) idx);
       movie ← lift (element (val_movie_id <$> val_df) idx);
       pred ← lift (predict_rating train_data_df user_mat movie_mat user movie);
       rating ← lift (element (val_rating <$> val_df) idx);
       print_comparison (Comparison user movie rating (pyround pred))) tt out)
    as ([] & s' & E & lines & -> & Hlines).
  - exists []. split; [now rewrite app_nil_r|]. split; [reflexivity|].
    intros idx row Hidx. lia.
  - apply comparison_turns; [exact Hlen|].
    now apply known_predictable.
  - exists lines. split; [exact E | exact Hlines].
Qed.

(** X7.  At the first validation row whose user or movie is not in the
    training frame, [validation_comparison] raises [IndexError]; it has
    printed the lines of the rows before that one and no other, as the
    notebook's run shows on its seventh row. *)
Theorem validation_comparison_stops (train_data_df : DataFrame)
    (user_mat movie_mat : ndarray F) val_df (num_preds : Z) (k : nat)
    (row : validation_row) (out : list (comparison F)) :
  conformant train_data_df user_mat movie_mat ->
  k < Z.to_nat num_preds ->
  val_df !! k = Some row ->
  val_user_id row ∉ index train_data_df
  \/ val_movie_id row ∉ columns train_data_df ->
  known_before train_data_df val_df k ->
  exists lines,
    validation_comparison train_data_df user_mat movie_mat val_df num_preds out
    = (Raise IndexError, out ++ lines)
    /\ compared train_data_df user_mat movie_mat val_df k lines.
Proof.
  intros Hfit Hk Hrow Habsent Hknown. unfold validation_comparison.
  destruct (for_range_raises_at
    (fun i (_ : unit) s => exists lines, s = out ++ lines
       /\ compared train_data_df user_mat movie_mat val_df i lines)
    (fun s => exists lines, s = out ++ lines
       /\ compared train_data_df user_mat movie_mat val_df k lines)
    (fun idx _ =>
       user ← lift (element (val_user_id <$> val_df) idx);
       movie ← lift (element (val_movie_id <$> val_df) idx);
       pred ← lift (predict_rating train_data_df user_mat movie_mat user movie);
       rating ← lift (element (val_rating <$> val_df) idx);
       print_comparison (Comparison user movie rating (pyround pred)))
    (Z.to_nat num_preds) k tt out IndexError Hk)
    as (s' & E & lines & -> & Hlines).
  - exists []. split; [now rewrite app_nil_r|]. split; [reflexivity|].
    intros idx row' Hidx. lia.
  - apply comparison_turns.
    + apply Nat.lt_le_incl. eapply lookup_lt_Some. exact Hrow.
    + now apply known_predictable.
  - intros [] s Hs. exists s. split; [|exact Hs].
    unfold mbind, M_bind, bind, lift.
    rewrite !(element_fmap _ _ _ _ Hrow).
    now rewrite (predict_rating_absent _ _ _ _ _ Habsent).
  - exists lines. split; [exact E | exact Hlines].
Qed.

(** X8.  Asked for more predictions than the validation set has rows, all
    of them naming a user and a movie of the training frame,
    [validation_comparison] prints a line for every row and then raises
    [IndexError] on reading past the end of [val_users]. *)
Theorem validation_comparison_past_end (train_data_df : DataFrame)
    (user_mat movie_mat : ndarray F) val_df (num_preds : Z)
    (out : list (comparison F)) :
  conformant train_data_df user_mat movie_mat ->
  length val_df < Z.to_nat num_preds ->
  known_before train_data_df val_df (length val_df) ->
  exists lines,
    validation_comparison train_data_df user_mat movie_mat val_df num_preds out
    = (Raise IndexError, out ++ lines)
    /\ compared train_data_df user_mat movie_mat val_df (length val_df) lines.
Proof.
  intros Hfit Hlen Hknown. unfold validation_comparison.
  destruct (for_range_raises_at
    (fun i (_ : unit) s => exists lines, s = out ++ lines
       /\ compared train_data_df user_mat movie_mat val_df i lines)
    (fun s => exists lines, s = out ++ lines
       /\ compared train_data_df user_mat movie_mat val_df (length val_df)
            lines)
    (fun idx _ =>
       user ← lift (element (val_user_id <$> val_df) idx);
       movie ← lift (element (val_movie_id <$> val_df) idx);
       pred ← lift (predict_rating train_data_df user_mat movie_mat user movie);
       rating ← lift (element (val_rating <$> val_df) idx);
       print_comparison (Comparison user movie rating (pyround pred)))
    (Z.to_nat num_preds) (length val_df) tt out IndexError Hlen)
    as (s' & E & lines & -> & Hlines).
  - exists []. split; [now rewrite app_nil_r|]. split; [reflexivity|].
    intros idx row' Hidx. lia.
  - apply comparison_turns; [lia|]. now apply known_predictable.
  - intros [] s Hs. exists s. split; [|exact Hs].
    unfold mbind, M_bind, bind, lift.
    now rewrite element_out_of_range by (rewrite length_fmap; lia).
  - exists lines. split; [exact E | exact Hlines].
Qed.

End ValidationTheorems.

(** ** Prediction with factor matrices that do not fit *)

Section PredictionFurther.
Context {F : Type} `{Scalar F}.

(** X9.  For ids of the training frame and factor matrices with a row a
    user and a column a movie but different numbers of latent features,
    [predict_rating] raises [ValueError], from [np.dot]. *)
Theorem predict_rating_latent_mismatch (train_data_df : DataFrame)
    (user_matrix movie_matrix : ndarray F) (user_id movie_id : Z) :
  user_id ∈ index train_data_df ->
  movie_id ∈ columns train_data_df ->
  well_shaped user_matrix ->
  well_shaped movie_matrix ->
  shape0 user_matrix = length (index train_data_df) ->
  shape1 movie_matrix = length (columns train_data_df) ->
  shape1 user_matrix <> shape0 movie_matrix ->
  predict_rating train_data_df user_matrix movie_matrix user_id movie_id
  = Raise ValueError.
Proof.
  intros Hu Hm HwsU HwsM HrowsU HcolsM Hlatent.
  destruct (first_match _ _ Hu) as (user_row & Eu & Hur & _).
  destruct (first_match _ _ Hm) as (movie_col & Em & Hmc & _).
  destruct (row_ok user_matrix user_row HwsU) as (u & Erow & Hlenu & _).
  { rewrite HrowsU. eapply lookup_lt_Some. exact Hur. }
  destruct (column_ok movie_matrix movie_col HwsM) as (v & Ecol & Hlenv & _).
  { rewrite HcolsM. eapply lookup_lt_Some. exact Hmc. }
  unfold predict_rating. rewrite Eu. simpl. rewrite Em. simpl.
  rewrite Erow. simpl. rewrite Ecol. simpl. unfold dot.
  destruct (Nat.eqb_spec (length u) (length v)); [congruence | reflexivity].
Qed.

(** X10.  For ids of the training frame with the user's first position
    beyond the rows of the user matrix, [predict_rating] raises
    [IndexError] on taking the row. *)
Theorem predict_rating_short_user_matrix (train_data_df : DataFrame)
    (user_matrix movie_matrix : ndarray F) (user_id movie_id : Z) :
  user_id ∈ index train_data_df ->
  movie_id ∈ columns train_data_df ->
  (forall p, p < shape0 user_matrix ->
     index train_data_df !! p <> Some user_id) ->
  predict_rating train_data_df user_matrix movie_matrix user_id movie_id
  = Raise IndexError.
Proof.
  intros Hu Hm Hbeyond.
  destruct (first_match _ _ Hu) as (user_row & Eu & Hur & _).
  destruct (first_match _ _ Hm) as (movie_col & Em & _).
  unfold predict_rating. rewrite Eu. simpl. rewrite Em. simpl.
  unfold row. destruct (Nat.ltb_spec user_row (shape0 user_matrix)) as [Hlt|];
    [|reflexivity].
  now destruct (Hbeyond user_row Hlt).
Qed.

End PredictionFurther.

(** ** Training: the lines printed *)

Section TrainingOutput.
Context {F G : Type} `{Scalar F} `{RandomState F G}.
Local Abbreviation world := (world F G).

(** Reading and writing arrays prints nothing. *)
Variable out : list (line F).
Local Abbreviation silent := (fun w : world => stdout w = out).

Lemma load_silent l : preserves silent (load l).
Proof. intros w Hw. unfold load. now destruct (heap w !! l). Qed.

Lemma store_silent l a : preserves silent (store l a).
Proof. intros w Hw. exact Hw. Qed.

Lemma getitem_silent l i j : preserves silent (getitem l i j).
Proof.
  apply preserves_bind; [apply load_silent | intros; apply preserves_lift].
Qed.

Lemma setitem_at_silent l i j x : preserves silent (setitem_at l i j x).
Proof.
  apply preserves_bind; [apply load_silent | intros a].
  apply preserves_bind; [apply preserves_lift | intros a'].
  apply store_silent.
Qed.

Lemma update_factors_silent user_mat movie_mat learning_rate diff i j k :
  preserves silent (update_factors user_mat movie_mat learning_rate diff i j k).
Proof.
  unfold update_factors.
  repeat (first
    [ apply getitem_silent
    | apply setitem_at_silent
    | apply preserves_bind; [|intros ?] ]).
Qed.

Lemma visit_silent ratings_mat user_mat movie_mat latent_features
    learning_rate i j sse_accum :
  preserves silent (visit ratings_mat user_mat movie_mat latent_features
                      learning_rate i j sse_accum).
Proof.
  unfold visit.
  apply preserves_bind; [apply getitem_silent | intros r].
  destruct (rating_exists r); [|apply preserves_ret].
  repeat (first
    [ apply getitem_silent
    | apply load_silent
    | apply preserves_lift
    | apply preserves_ret
    | apply preserves_for_range; intros ? ?
    | apply update_factors_silent
    | apply preserves_bind; [|intros ?] ]).
Qed.

End TrainingOutput.

Section TrainingOutputTheorem.
Context {F G : Type} `{Scalar F} `{RandomState F G}.
Local Abbreviation world := (world F G).

(** Progress lines numbered from 1. *)
Definition numbered (lines : list (line F)) : Prop :=
  forall i, i < length lines -> exists mse, lines !! i = Some (Progress (i + 1) mse).

(** One iteration prints its progress line when it returns and nothing
    when it raises. *)
Lemma iterate_stdout (w : world) ratings_mat user_mat movie_mat n_users
    n_movies num_ratings latent_features learning_rate iteration sse_accum :
  match iterate ratings_mat user_mat movie_mat n_users n_movies num_ratings
          latent_features learning_rate iteration sse_accum w with
  | (Ok _, w') =>
      exists mse, stdout w' = stdout w ++ [Progress (iteration + 1) mse]
  | (Raise _, w') => stdout w' = stdout w
  end.
Proof.
  unfold iterate.
  set (sweep := for_range n_users _ _).
  assert (stdout (sweep w).2 = stdout w) as Hsweep.
  { apply (preserves_for_range (fun w' : world => stdout w' = stdout w));
      [|reflexivity].
    intros i sse. apply preserves_for_range. intros j sse'.
    apply visit_silent. }
  unfold mbind, M_bind, bind.
  destruct (sweep w) as [[sse|e] w1]; simpl in *; [|exact Hsweep].
  unfold lift. destruct (py_div sse (Z.of_nat num_ratings)) as [mse|e];
    simpl; [|exact Hsweep].
  exists mse. now rewrite Hsweep.
Qed.

Lemma iterations_stdout (w : world) ratings_mat user_mat movie_mat n_users
    n_movies num_ratings latent_features learning_rate iters sse_accum :
  exists lines,
    stdout (for_range iters (iterate ratings_mat user_mat movie_mat n_users
              n_movies num_ratings latent_features learning_rate)
              sse_accum w).2 = stdout w ++ lines
    /\ length lines <= iters
    /\ numbered lines
    /\ (forall sse,
          (for_range iters (iterate ratings_mat user_mat movie_mat n_users
             n_movies num_ratings latent_features learning_rate)
             sse_accum w).1 = Ok sse ->
          length lines = iters).
Proof.
  induction iters as [|n IH].
  - exists []. simpl. rewrite app_nil_r. repeat split; auto.
    intros i Hi. simpl in Hi. lia.
  - destruct IH as (lines & Hout & Hlen & Hnum & Hok).
    rewrite for_range_S.
    destruct (for_range n _ sse_accum w) as [[sse|e] w1] eqn:E; simpl in *.
    + specialize (Hok sse eq_refl).
      pose proof (iterate_stdout w1 ratings_mat user_mat movie_mat n_users
        n_movies num_ratings latent_features learning_rate n sse) as Hturn.
      destruct (iterate _ _ _ _ _ _ _ _ n sse w1) as [[sse'|e] w2]; simpl.
      * destruct Hturn as [mse Hturn].
        exists (lines ++ [Progress (n + 1) mse]).
        rewrite Hturn, Hout, <- app_assoc, length_app. simpl.
        split; [reflexivity|]. split; [lia|]. split; [|intros; lia].
        intros i Hi. rewrite length_app in Hi. simpl in Hi.
        destruct (Nat.eq_dec i n) as [-> | Hne].
        -- exists mse. rewrite lookup_app_r by lia.
           now rewrite Hok, Nat.sub_diag.
        -- destruct (Hnum i ltac:(lia)) as [mse' Hi'].
           exists mse'. now rewrite lookup_app_l by lia.
      * exists lines. rewrite Hturn.
        split; [exact Hout|]. split; [lia|]. split; [exact Hnum|].
        intros sse0 [=].
    + exists lines. split; [exact Hout|]. split; [lia|].
      split; [exact Hnum | intros sse0 [=]].
Qed.

(** X11.  A call on an array prints the two header lines and then one
    progress line an iteration, numbered from 1: as many as iterations
    went through, all [iters] of them when the call returns. *)
Theorem FunkSVD_progress (w : world) (ratings_mat : nat) (ratings : ndarray F)
    (latent_features : nat) (learning_rate : F) (iters : nat) :
  heap w !! ratings_mat = Some ratings ->
  exists lines,
    stdout (FunkSVD ratings_mat latent_features learning_rate iters w).2
    = stdout w
      ++ [Text "Optimizaiton Statistics";
          Text "Iterations | Mean Squared Error "]
      ++ lines
    /\ length lines <= iters
    /\ numbered lines
    /\ (forall factors,
          (FunkSVD ratings_mat latent_features learning_rate iters w).1
          = Ok factors ->
          length lines = iters).
Proof.
  intros Hr. rewrite (FunkSVD_unfold w ratings_mat ratings) by exact Hr.
  unfold training.
  erewrite bind_ok by reflexivity. erewrite bind_ok by reflexivity.
  match goal with |- context [for_range iters ?body ?b ?w0] =>
    destruct (iterations_stdout w0 ratings_mat (length (heap w))
      (S (length (heap w))) (shape0 ratings) (shape1 ratings)
      (count_not_nan ratings) latent_features learning_rate iters b)
      as (lines & Hout & Hlen & Hnum & Hok);
    destruct (for_range iters body b w0) as [[sse|e] w'] eqn:E
  end; simpl in *.
  - exists lines. rewrite Hout, <- !app_assoc. simpl.
    split; [reflexivity|]. split; [exact Hlen|]. split; [exact Hnum|].
    intros _ _. now apply (Hok sse).
  - exists lines. rewrite Hout, <- !app_assoc. simpl.
    split; [reflexivity|]. split; [exact Hlen|]. split; [exact Hnum|].
    intros factors [=].
Qed.

End TrainingOutputTheorem.

(** ** Training on a matrix without a rating that exists *)

Section TrainingIdle.
Context {F G : Type} `{Scalar F} `{RandomState F G}.
Local Abbreviation world := (world F G).

Variables (ratings_mat : nat) (ratings : ndarray F).
Variables (user_mat movie_mat latent_features : nat) (learning_rate : F).
Hypothesis ratings_shaped : well_shaped ratings.
Hypothesis none_exists :
  forall r, r ∈ data ratings -> rating_exists r = false.

(** Every entry is skipped: a sweep over the matrix changes nothing. *)
Lemma sweep_idle (w : world) (sse_accum : pynum F) :
  heap w !! ratings_mat = Some ratings ->
  for_range (shape0 ratings) (fun i sse_accum =>
    for_range (shape1 ratings) (fun j sse_accum =>
      visit ratings_mat user_mat movie_mat latent_features learning_rate
        i j sse_accum) sse_accum) sse_accum w
  = (Ok sse_accum, w).
Proof.
  intros Hr.
  destruct (for_range_invariant
    (fun _ (b : pynum F) (s : world) => b = sse_accum /\ s = w)
    (shape0 ratings)
    (fun i sse =>
       for_range (shape1 ratings) (fun j sse =>
         visit ratings_mat user_mat movie_mat latent_features learning_rate
           i j sse) sse) sse_accum w) as (b & s & E & -> & ->); auto.
  intros i b s Hi [-> ->].
  apply (for_range_invariant
    (fun _ (b : pynum F) (s : world) => b = sse_accum /\ s = w)); auto.
  intros j b s Hj [-> ->].
  destruct (item_ok ratings i j ratings_shaped Hi Hj) as (r & Er & Hin).
  exists sse_accum, w. split; [|auto].
  eapply visit_skips.
  - eapply getitem_eq; eassumption.
  - apply none_exists. eapply list_elem_of_lookup_2. exact Hin.
Qed.

(** The state after [t] idle iterations from [w]. *)
Definition idle_world (w : world) (t : nat) : world :=
  {| heap := heap w;
     stdout := stdout w
       ++ ((fun i => Progress (i + 1)
              (fdiv (of_Z 0) (of_Z (Z.of_nat (count_not_nan ratings)))))
           <$> seq 0 t);
     generator := generator w |}.

Lemma iterate_idle (w : world) iteration sse_accum :
  heap w !! ratings_mat = Some ratings ->
  iterate ratings_mat user_mat movie_mat (shape0 ratings) (shape1 ratings)
    (count_not_nan ratings) latent_features learning_rate iteration
    sse_accum w
  = match count_not_nan ratings with
    | 0 => (Raise ZeroDivisionError, w)
    | S _ =>
        (Ok (PyInt 0),
         {| heap := heap w;
            stdout := stdout w
              ++ [Progress (iteration + 1)
                    (fdiv (of_Z 0) (of_Z (Z.of_nat (count_not_nan ratings))))];
            generator := generator w |})
    end.
Proof.
  intros Hr. unfold iterate.
  erewrite bind_ok by (apply sweep_idle; exact Hr).
  destruct (count_not_nan ratings) as [|n]; [reflexivity|].
  erewrite bind_ok by reflexivity. reflexivity.
Qed.

Lemma iterate_idle_ok (w : world) iteration sse_accum :
  heap w !! ratings_mat = Some ratings ->
  count_not_nan ratings <> 0 ->
  iterate ratings_mat user_mat movie_mat (shape0 ratings) (shape1 ratings)
    (count_not_nan ratings) latent_features learning_rate iteration
    sse_accum w
  = (Ok (PyInt 0),
     {| heap := heap w;
        stdout := stdout w
          ++ [Progress (iteration + 1)
                (fdiv (of_Z 0) (of_Z (Z.of_nat (count_not_nan ratings))))];
        generator := generator w |}).
Proof.
  intros Hr Hnum. rewrite iterate_idle by exact Hr.
  destruct (count_not_nan ratings); [congruence | reflexivity].
Qed.

Lemma iterations_idle (w : world) iters :
  heap w !! ratings_mat = Some ratings ->
  count_not_nan ratings <> 0 ->
  exists sse,
    for_range iters (iterate ratings_mat user_mat movie_mat (shape0 ratings)
      (shape1 ratings) (count_not_nan ratings) latent_features learning_rate)
      (PyInt 0) w
    = (Ok sse, idle_world w iters).
Proof.
  intros Hr Hnum.
  destruct (for_range_invariant
    (fun t (_ : pynum F) (s : world) => s = idle_world w t) iters
    (iterate ratings_mat user_mat movie_mat (shape0 ratings) (shape1 ratings)
       (count_not_nan ratings) latent_features learning_rate) (PyInt 0) w)
    as (sse & s & E & ->).
  - unfold idle_world. simpl. rewrite app_nil_r. now destruct w.
  - intros t b s Ht ->. rewrite iterate_idle_ok by assumption.
    eexists _, _. split; [reflexivity|].
    unfold idle_world. cbn [heap stdout generator].
    rewrite seq_S, fmap_app, app_assoc. reflexivity.
  - exists sse. exact E.
Qed.

End TrainingIdle.

Section TrainingIdleTheorems.
Context {F G : Type} `{Scalar F} `{RandomState F G}.
Local Abbreviation world := (world F G).

(** The state once the factors are drawn and the header is printed. *)
Definition headed (w : world) (ratings : ndarray F) (latent_features : nat)
  : world :=
  {| heap := heap (initialised w ratings latent_features);
     stdout := stdout w
       ++ [Text "Optimizaiton Statistics";
           Text "Iterations | Mean Squared Error "];
     generator := generator (initialised w ratings latent_features) |}.

Lemma headed_ratings (w : world) ratings_mat ratings latent_features :
  heap w !! ratings_mat = Some ratings ->
  heap (headed w ratings latent_features) !! ratings_mat = Some ratings.
Proof.
  intros Hr. unfold headed, initialised. simpl.
  rewrite <- app_assoc, lookup_app_l; [exact Hr|].
  eapply lookup_lt_Some. exact Hr.
Qed.

Lemma training_headed (w : world) ratings_mat ratings user_mat movie_mat
    latent_features learning_rate iters :
  training ratings_mat ratings user_mat movie_mat latent_features
    learning_rate iters (initialised w ratings latent_features)
  = for_range iters (iterate ratings_mat user_mat movie_mat (shape0 ratings)
      (shape1 ratings) (count_not_nan ratings) latent_features learning_rate)
      (PyInt 0) (headed w ratings latent_features).
Proof.
  unfold training, headed, mbind, M_bind, bind, print.
  cbn [heap stdout generator]. now rewrite <- app_assoc.
Qed.

(** X12.  On a ratings matrix that has no entry other than NaN, none of
    which passes the test [> 0], a call with at least one iteration raises
    [ZeroDivisionError] at its first progress line: the two factors are
    drawn, the header is printed, and nothing is returned. *)
Theorem FunkSVD_no_rating_raises (w : world) (ratings_mat : nat)
    (ratings : ndarray F) (latent_features : nat) (learning_rate : F)
    (iters : nat) :
  heap w !! ratings_mat = Some ratings ->
  well_shaped ratings ->
  (forall r, r ∈ data ratings -> rating_exists r = false) ->
  count_not_nan ratings = 0 ->
  0 < iters ->
  FunkSVD ratings_mat latent_features learning_rate iters w
  = (Raise ZeroDivisionError, headed w ratings latent_features).
Proof.
  intros Hr Hws Hnone Hnum Hiters.
  rewrite (FunkSVD_unfold w ratings_mat ratings) by exact Hr.
  rewrite training_headed.
  destruct iters as [|n]; [lia|].
  erewrite for_range_first_raises; [reflexivity|].
  rewrite (iterate_idle ratings_mat ratings _ _ _ _ Hws Hnone)
    by (apply headed_ratings; exact Hr).
  now rewrite Hnum.
Qed.

(** X13.  On a ratings matrix with a number in it but no entry that passes
    the test [> 0] (a matrix of zeros, say), training leaves the factors
    as [np.random.rand] drew them: the call returns them after printing,
    at every iteration, the mean squared error [0 / num_ratings]. *)
Theorem FunkSVD_no_positive_rating (w : world) (ratings_mat : nat)
    (ratings : ndarray F) (latent_features : nat) (learning_rate : F)
    (iters : nat) :
  heap w !! ratings_mat = Some ratings ->
  well_shaped ratings ->
  (forall r, r ∈ data ratings -> rating_exists r = false) ->
  count_not_nan ratings <> 0 ->
  FunkSVD ratings_mat latent_features learning_rate iters w
  = (Ok (length (heap w), S (length (heap w))),
     idle_world ratings (headed w ratings latent_features) iters).
Proof.
  intros Hr Hws Hnone Hnum.
  rewrite (FunkSVD_unfold w ratings_mat ratings) by exact Hr.
  rewrite training_headed.
  destruct (iterations_idle ratings_mat ratings (length (heap w))
    (S (length (heap w))) latent_features learning_rate Hws Hnone
    (headed w ratings latent_features) iters
    (headed_ratings w ratings_mat ratings latent_features Hr) Hnum)
    as [sse ->].
  reflexivity.
Qed.

End TrainingIdleTheorems.

(** ** Training: users and movies without a rating *)

Section ArrayCells.
Context {F : Type} `{Scalar F}.
Implicit Types (a : ndarray F).

(** A write leaves the other cells as they were. *)
Lemma item_setitem_other a i j x a' i' j' :
  setitem a i j x = Ok a' -> (i', j') <> (i, j) -> item a' i' j' = item a i' j'.
Proof.
  unfold setitem, item. destruct (in_bounds a i j) eqn:Hb; [|discriminate].
  intros [= <-] Hne. unfold in_bounds in *. simpl.
  destruct ((i' <? shape0 a) && (j' <? shape1 a)) eqn:Hb'; [|reflexivity].
  apply andb_prop in Hb as [_ Hj]. apply andb_prop in Hb' as [_ Hj'].
  apply Nat.ltb_lt in Hj, Hj'.
  rewrite list_lookup_insert_ne; [reflexivity|].
  intros Heq. apply Hne.
  assert (i = i') by nia. subst. f_equal. lia.
Qed.

Lemma setitem_shape a i j x a' :
  setitem a i j x = Ok a' -> shape0 a' = shape0 a /\ shape1 a' = shape1 a.
Proof.
  unfold setitem. destruct (in_bounds a i j); [|discriminate].
  intros [= <-]. auto.
Qed.

End ArrayCells.

Section TrainingKept.
Context {F G : Type} `{Scalar F} `{RandomState F G}.
Local Abbreviation world := (world F G).

Lemma preserves_and {St A} (J1 J2 : St -> Prop) (m : M St A) :
  preserves J1 m -> preserves J2 m -> preserves (fun s => J1 s /\ J2 s) m.
Proof. intros H1 H2 s [Hs1 Hs2]. split; [now apply H1 | now apply H2]. Qed.

(** The array at [l] has the shape of [a0] and its cells in [cells] hold
    what they hold in [a0]. *)
Definition kept (l : nat) (a0 : ndarray F) (cells : nat -> nat -> Prop)
    (w : world) : Prop :=
  exists a, heap w !! l = Some a
    /\ shape0 a = shape0 a0 /\ shape1 a = shape1 a0
    /\ forall i j, cells i j -> item a i j = item a0 i j.

Variables (l : nat) (a0 : ndarray F) (cells : nat -> nat -> Prop).

Lemma load_kept l' : preserves (kept l a0 cells) (load l').
Proof. intros w Hw. unfold load. now destruct (heap w !! l'). Qed.

Lemma getitem_kept l' i j : preserves (kept l a0 cells) (getitem l' i j).
Proof.
  apply preserves_bind; [apply load_kept | intros; apply preserves_lift].
Qed.

Lemma store_kept_other l' a : l' <> l -> preserves (kept l a0 cells) (store l' a).
Proof.
  intros Hne w (a1 & Ha1 & Hkept). exists a1. split; [|exact Hkept].
  unfold store. simpl. now rewrite list_lookup_insert_ne.
Qed.

Lemma setitem_at_kept_other l' i j x :
  l' <> l -> preserves (kept l a0 cells) (setitem_at l' i j x).
Proof.
  intros Hne. apply preserves_bind; [apply load_kept | intros a].
  apply preserves_bind; [apply preserves_lift | intros a'].
  now apply store_kept_other.
Qed.

Lemma setitem_at_kept_cell i j x :
  ~ cells i j -> preserves (kept l a0 cells) (setitem_at l i j x).
Proof.
  intros Hfree w (a1 & Ha1 & Hs0 & Hs1 & Hcells).
  unfold setitem_at.
  erewrite bind_ok by (unfold load; rewrite Ha1; reflexivity).
  destruct (setitem a1 i j x) as [a'|e] eqn:Ea.
  - erewrite bind_ok by reflexivity.
    exists a'. unfold store. simpl.
    destruct (setitem_shape a1 i j x a' Ea) as [Hs0' Hs1'].
    split. { apply list_lookup_insert_eq. eapply lookup_lt_Some. exact Ha1. }
    split; [congruence|]. split; [congruence|].
    intros i' j' Hc. rewrite <- (Hcells i' j' Hc).
    eapply item_setitem_other; [exact Ea|].
    intros [= -> ->]. contradiction.
  - erewrite bind_raise by reflexivity.
    exists a1. auto.
Qed.

End TrainingKept.

Section TrainingUnrated.
Context {F G : Type} `{Scalar F} `{RandomState F G}.
Local Abbreviation world := (world F G).

Variables (ratings_mat : nat) (ratings : ndarray F).
Variables (user_mat movie_mat latent_features : nat) (learning_rate : F).
Hypothesis ratings_apart_user : ratings_mat <> user_mat.
Hypothesis ratings_apart_movie : ratings_mat <> movie_mat.
Hypothesis factors_apart : user_mat <> movie_mat.

(** The ratings matrix stays where it is. *)
Local Abbreviation rated :=
  (kept (G := G) ratings_mat ratings (fun _ _ => True)).

Lemma rated_item (w : world) i j :
  rated w -> exists a, heap w !! ratings_mat = Some a
                       /\ item a i j = item ratings i j.
Proof. intros (a & Ha & _ & _ & Hcells). exists a. auto. Qed.

Lemma update_factors_rated diff i j k :
  preserves rated (update_factors user_mat movie_mat learning_rate diff i j k).
Proof.
  unfold update_factors.
  repeat (first
    [ apply getitem_kept
    | apply setitem_at_kept_other; congruence
    | apply preserves_bind; [|intros ?] ]).
Qed.

Lemma visit_rated i j sse_accum :
  preserves rated (visit ratings_mat user_mat movie_mat latent_features
                     learning_rate i j sse_accum).
Proof.
  unfold visit.
  apply preserves_bind; [apply getitem_kept | intros r].
  destruct (rating_exists r); [|apply preserves_ret].
  repeat (first
    [ apply getitem_kept
    | apply load_kept
    | apply preserves_lift
    | apply preserves_ret
    | apply preserves_for_range; intros ? ?
    | apply update_factors_rated
    | apply preserves_bind; [|intros ?] ]).
Qed.

(** An entry without a rating that exists leaves the state as it is. *)
Lemma visit_unrated (w : world) i j sse_accum :
  rated w ->
  (forall r, item ratings i j = Ok r -> rating_exists r = false) ->
  (visit ratings_mat user_mat movie_mat latent_features learning_rate i j
     sse_accum w).2 = w.
Proof.
  intros Hw Hnone. destruct (rated_item w i j Hw) as (a & Ha & Hitem).
  unfold visit, getitem, mbind, M_bind, bind, load, lift.
  rewrite Ha, Hitem.
  destruct (item ratings i j) as [r|e] eqn:Er; [|reflexivity].
  now rewrite (Hnone r eq_refl).
Qed.

(** The factor at [l], one of the two, with the cells [cells] that no
    rated entry writes: [writes i j k] says that the turn [k] of the entry
    [(i, j)] writes none of them. *)
Variables (l : nat) (a0 : ndarray F) (cells : nat -> nat -> Prop).
Variable writes_none : nat -> nat -> nat -> Prop.
Hypothesis update_factors_cells : forall diff i j k,
  writes_none i j k ->
  preserves (kept (G := G) l a0 cells)
    (update_factors user_mat movie_mat learning_rate diff i j k).
Hypothesis entry_cases : forall i j,
  (forall r, item ratings i j = Ok r -> rating_exists r = false)
  \/ (forall k, writes_none i j k).

Local Abbreviation J := (fun w : world => rated w /\ kept l a0 cells w).

Lemma visit_cells i j sse_accum :
  preserves J (visit ratings_mat user_mat movie_mat latent_features
                 learning_rate i j sse_accum).
Proof.
  destruct (entry_cases i j) as [Hnone | Hfree].
  - intros w [Hrated Hkept]. now rewrite visit_unrated.
  - apply preserves_and; [apply visit_rated|].
    unfold visit.
    apply preserves_bind; [apply getitem_kept | intros r].
    destruct (rating_exists r); [|apply preserves_ret].
    repeat (first
      [ apply getitem_kept
      | apply load_kept
      | apply preserves_lift
      | apply preserves_ret
      | apply preserves_for_range; intros ? ?
      | apply update_factors_cells; apply Hfree
      | apply preserves_bind; [|intros ?] ]).
Qed.

Lemma print_cells ln : preserves J (print ln).
Proof. intros w Hw. exact Hw. Qed.

Lemma training_cells iters :
  preserves J (training ratings_mat ratings user_mat movie_mat latent_features
                 learning_rate iters).
Proof.
  unfold training, iterate.
  repeat (first
    [ apply print_cells
    | apply visit_cells
    | apply preserves_lift
    | apply preserves_ret
    | apply preserves_for_range; intros ? ?
    | apply preserves_bind; [|intros ?] ]).
Qed.

End TrainingUnrated.

Section TrainingUnratedTheorems.
Context {F G : Type} `{Scalar F} `{RandomState F G}.
Local Abbreviation world := (world F G).

Lemma initialised_rated (w : world) ratings_mat ratings latent_features :
  heap w !! ratings_mat = Some ratings ->
  kept ratings_mat ratings (fun _ _ => True)
    (initialised w ratings latent_features).
Proof.
  intros Hr. exists ratings. split; [|auto].
  unfold initialised. simpl.
  rewrite <- app_assoc, lookup_app_l; [exact Hr|].
  eapply lookup_lt_Some. exact Hr.
Qed.

Lemma initialised_user (w : world) ratings latent_features cells :
  kept (length (heap w))
    (rand (shape0 ratings) latent_features (generator w)).1 cells
    (initialised w ratings latent_features).
Proof.
  eexists. split; [|auto]. unfold initialised. simpl.
  rewrite <- app_assoc, lookup_app_r by lia. now rewrite Nat.sub_diag.
Qed.

Lemma initialised_movie (w : world) ratings latent_features cells :
  kept (S (length (heap w)))
    (rand latent_features (shape1 ratings)
       (rand (shape0 ratings) latent_features (generator w)).2).1 cells
    (initialised w ratings latent_features).
Proof.
  eexists. split; [|auto]. unfold initialised. simpl.
  rewrite lookup_app_r by (rewrite length_app; simpl; lia).
  rewrite length_app. simpl.
  now replace (S (length (heap w)) - (length (heap w) + 1)) with 0 by lia.
Qed.

(** The state a call ends in, from the state after the two draws. *)
Lemma FunkSVD_final (w : world) ratings_mat ratings latent_features
    learning_rate iters (J : world -> Prop) :
  heap w !! ratings_mat = Some ratings ->
  preserves J (training ratings_mat ratings (length (heap w))
                 (S (length (heap w))) latent_features learning_rate iters) ->
  J (initialised w ratings latent_features) ->
  J (FunkSVD ratings_mat latent_features learning_rate iters w).2.
Proof.
  intros Hr Hkeeps Hinit.
  rewrite (FunkSVD_unfold w ratings_mat ratings) by exact Hr.
  specialize (Hkeeps _ Hinit).
  now destruct (training _ _ _ _ _ _ _ _) as [[sse|e] w'].
Qed.

Lemma FunkSVD_factors (w : world) ratings_mat ratings latent_features
    learning_rate iters user_mat movie_mat :
  heap w !! ratings_mat = Some ratings ->
  (FunkSVD ratings_mat latent_features learning_rate iters w).1
  = Ok (user_mat, movie_mat) ->
  user_mat = length (heap w) /\ movie_mat = S (length (heap w)).
Proof.
  intros Hr. rewrite (FunkSVD_unfold w ratings_mat ratings) by exact Hr.
  destruct (training _ _ _ _ _ _ _ _) as [[sse|e] w']; simpl; [|discriminate].
  intros [= <- <-]. auto.
Qed.

(** X14.  A user without a rating that exists (no entry of the user's row
    passes the test [> 0]) is given no training: in the user matrix that
    is returned, the user's row holds the numbers [np.random.rand] drew
    for it. *)
Theorem FunkSVD_unrated_user (w : world) (ratings_mat : nat)
    (ratings : ndarray F) (latent_features : nat) (learning_rate : F)
    (iters : nat) (i0 : nat) :
  heap w !! ratings_mat = Some ratings ->
  (forall j r, item ratings i0 j = Ok r -> rating_exists r = false) ->
  forall user_mat movie_mat,
    (FunkSVD ratings_mat latent_features learning_rate iters w).1
    = Ok (user_mat, movie_mat) ->
    exists U,
      heap (FunkSVD ratings_mat latent_features learning_rate iters w).2
        !! user_mat = Some U
      /\ forall k,
           item U i0 k
           = item (rand (shape0 ratings) latent_features (generator w)).1 i0 k.
Proof.
  intros Hr Hnone user_mat movie_mat Hrun.
  destruct (FunkSVD_factors w _ _ _ _ _ _ _ Hr Hrun) as [-> ->].
  assert (ratings_mat < length (heap w)) as Hlt
    by (eapply lookup_lt_Some; exact Hr).
  destruct (FunkSVD_final w ratings_mat ratings latent_features learning_rate
    iters
    (fun w' => kept ratings_mat ratings (fun _ _ => True) w'
               /\ kept (length (heap w))
                    (rand (shape0 ratings) latent_features (generator w)).1
                    (fun i _ => i = i0) w') Hr)
    as [_ (U & HU & _ & _ & Hcells)].
  - apply (training_cells ratings_mat ratings (length (heap w))
             (S (length (heap w))) latent_features learning_rate
             ltac:(lia) ltac:(lia) _ _ _ (fun i _ _ => i <> i0)).
    + intros diff i j k Hi. unfold update_factors.
      repeat (first
        [ apply getitem_kept
        | apply setitem_at_kept_cell; exact Hi
        | apply setitem_at_kept_other; lia
        | apply preserves_bind; [|intros ?] ]).
    + intros i j. destruct (Nat.eq_dec i i0) as [-> | Hne].
      * left. apply Hnone.
      * right. intros _. exact Hne.
  - split; [now apply initialised_rated | apply initialised_user].
  - exists U. split; [exact HU|]. intros k. now apply Hcells.
Qed.

(** X15.  A movie without a rating that exists (no entry of the movie's
    column passes the test [> 0]) is given no training: in the movie
    matrix that is returned, the movie's column holds the numbers
    [np.random.rand] drew for it. *)
Theorem FunkSVD_unrated_movie (w : world) (ratings_mat : nat)
    (ratings : ndarray F) (latent_features : nat) (learning_rate : F)
    (iters : nat) (j0 : nat) :
  heap w !! ratings_mat = Some ratings ->
  (forall i r, item ratings i j0 = Ok r -> rating_exists r = false) ->
  forall user_mat movie_mat,
    (FunkSVD ratings_mat latent_features learning_rate iters w).1
    = Ok (user_mat, movie_mat) ->
    exists M0,
      heap (FunkSVD ratings_mat latent_features learning_rate iters w).2
        !! movie_mat = Some M0
      /\ forall k,
           item M0 k j0
           = item (rand latent_features (shape1 ratings)
                     (rand (shape0 ratings) latent_features
                        (generator w)).2).1 k j0.
Proof.
  intros Hr Hnone user_mat movie_mat Hrun.
  destruct (FunkSVD_factors w _ _ _ _ _ _ _ Hr Hrun) as [-> ->].
  assert (ratings_mat < length (heap w)) as Hlt
    by (eapply lookup_lt_Some; exact Hr).
  destruct (FunkSVD_final w ratings_mat ratings latent_features learning_rate
    iters
    (fun w' => kept ratings_mat ratings (fun _ _ => True) w'
               /\ kept (S (length (heap w)))
                    (rand latent_features (shape1 ratings)
                       (rand (shape0 ratings) latent_features
                          (generator w)).2).1
                    (fun _ j => j = j0) w') Hr)
    as [_ (M0 & HM & _ & _ & Hcells)].
  - apply (training_cells ratings_mat ratings (length (heap w))
             (S (length (heap w))) latent_features learning_rate
             ltac:(lia) ltac:(lia) _ _ _ (fun _ j _ => j <> j0)).
    + intros diff i j k Hj. unfold update_factors.
      repeat (first
        [ apply getitem_kept
        | apply setitem_at_kept_cell; exact Hj
        | apply setitem_at_kept_other; lia
        | apply preserves_bind; [|intros ?] ]).
    + intros i j. destruct (Nat.eq_dec j j0) as [-> | Hne].
      * left. apply Hnone.
      * right. intros _. exact Hne.
  - split; [now apply initialised_rated | apply initialised_movie].
  - exists M0. split; [exact HM|]. intros k. now apply Hcells.
Qed.

End TrainingUnratedTheorems.

(** ** Training, then predicting *)

Section TrainThenPredict.
Context {F G : Type} `{Scalar F} `{RandomState F G}.
Context `{!RandomStateLaws F G}.
Local Abbreviation world := (world F G).

(** X16.  Trained on the matrix of a frame (a row a row label, a column a
    column label, some entry that is not NaN), [FunkSVD] returns factors
    with which [predict_rating] returns a prediction for every user of the
    frame's row index and every movie of its column index, rated or not. *)
Theorem FunkSVD_then_predict_rating (w : world) (ratings_mat : nat)
    (ratings : ndarray F) (train_data_df : DataFrame) (latent_features : nat)
    (learning_rate : F) (iters : nat) :
  heap w !! ratings_mat = Some ratings ->
  well_shaped ratings ->
  shape0 ratings = length (index train_data_df) ->
  shape1 ratings = length (columns train_data_df) ->
  iters = 0 \/ count_not_nan ratings <> 0 ->
  exists user_mat movie_mat U M0 w',
    FunkSVD ratings_mat latent_features learning_rate iters w
    = (Ok (user_mat, movie_mat), w')
    /\ heap w' !! user_mat = Some U
    /\ heap w' !! movie_mat = Some M0
    /\ forall user_id movie_id,
         user_id ∈ index train_data_df ->
         movie_id ∈ columns train_data_df ->
         exists pred,
           predict_rating train_data_df U M0 user_id movie_id = Ok pred.
Proof.
  intros Hr Hws Hrows Hcols Hnum.
  destruct (training_ok (heap w) ratings_mat ratings latent_features
    (length (heap w)) (S (length (heap w))) Hr Hws (Nat.le_refl _)
    (Nat.le_succ_diag_r _) (Nat.neq_succ_diag_r _)
    (initialised w ratings latent_features) learning_rate iters Hnum
    (initialised_factored w ratings latent_features))
    as (sse & w' & E & _ & U & M0 & HU & HM & HU0 & HU1 & HUws & HM0 & HM1 & HMws).
  exists (length (heap w)), (S (length (heap w))), U, M0, w'.
  rewrite (FunkSVD_unfold w ratings_mat ratings) by exact Hr.
  rewrite E. split; [reflexivity|]. split; [exact HU|]. split; [exact HM|].
  intros user_id movie_id Hu Hm.
  apply predict_rating_defined; [|exact Hu | exact Hm].
  unfold conformant. repeat split; try assumption; congruence.
Qed.

End TrainThenPredict.

(** * The further properties on concrete inputs *)

(** ** More stand-ins *)

Module RunFurther.

Local Open Scope float_scope.

(** [round] to the nearest integer, a tie going to the even one. *)
#[export] Instance round_half_even : Rounding float := fun x =>
  if PrimFloat.is_nan x then x
  else
    let a := PrimFloat.abs x in
    let below := floor_nat a in
    let f := float_of_nat below in
    let r := a - f in
    let n :=
      if r <? 0.5 then f
      else if 0.5 <? r then f + 1
      else if Nat.even below then f else f + 1 in
    if x <? 0 then - n else n.

#[export] Instance review_order : ColumnOrder review := fun by_ a b =>
  (field by_ a <= field by_ b)%Z.

(** Three validation rows; the last one is of a movie without a rating in
    the training frame. *)
Definition val_df : list validation_row :=
  [ {| val_user_id := 8; val_movie_id := 8133; val_rating := 8 |};
    {| val_user_id := 48; val_movie_id := 2844; val_rating := 4 |};
    {| val_user_id := 46; val_movie_id := 103639; val_rating := 9 |} ]%Z.

(** Factors of three latent features, which the two-feature movie matrix
    does not fit. *)
Definition wide_user_matrix : ndarray float :=
  {| shape0 := 3; shape1 := 3; data := [1; 2; 3; 0.5; 1.5; 2.5; 3; 0.25; 1] |}.

(** A user matrix with rows for the first two users only. *)
Definition short_user_matrix : ndarray float :=
  {| shape0 := 2; shape1 := 2; data := [1; 2; 0.5; 1.5] |}.

(** Ratings of three users for two movies: the last user has rated
    nothing, and nobody has rated the second movie. *)
Definition sparse_ratings : ndarray float :=
  {| shape0 := 3; shape1 := 2; data := [7; nan; 9; nan; nan; nan] |}.

Definition zero_rating : ndarray float :=
  {| shape0 := 1; shape1 := 2; data := [0; 0] |}.

End RunFurther.

Import RunFurther.

Lemma insert_by_sorted by_ (r : review) (l : list review) :
  StronglySorted (column_le by_) l ->
  StronglySorted (column_le by_) (insert_by by_ r l).
Proof.
  induction 1 as [|h t Ht IH Hh]; simpl.
  - repeat constructor.
  - destruct (Z.leb_spec (field by_ r) (field by_ h)) as [Hle | Hgt].
    + constructor; [now constructor|].
      constructor; [exact Hle|].
      eapply Forall_impl; [exact Hh|].
      intros x Hx. unfold column_le, review_order in *. lia.
    + constructor; [exact IH|].
      rewrite insert_by_perm. constructor; [|exact Hh].
      unfold column_le, review_order. lia.
Qed.

#[export] Instance sort_reviews_order : SortValuesOrder review.
Proof.
  intros df by_. unfold sort_values, sort_reviews.
  induction df as [|r df IH]; simpl; [constructor|].
  now apply insert_by_sorted.
Qed.

(** ** Runs *)

Section RunsFurther.
Local Open Scope float_scope.

Lemma create_train_test_sizes_run :
  (2 + 1 <= Z.of_nat (length reviews))%Z
  /\ length (create_train_test reviews "timestamp" 2 1).1 = 2%nat
  /\ length (create_train_test reviews "timestamp" 2 1).2 = 1%nat.
Proof.
  assert (2 + 1 <= Z.of_nat (length reviews))%Z as Hfit by (simpl; lia).
  split; [exact Hfit|].
  destruct (create_train_test_sizes reviews "timestamp" 2 1) as (_ & _ & Hexact);
    [lia | lia |].
  exact (Hexact Hfit).
Defined.

(** A negative training size: all but the last three rows. *)
Lemma create_train_test_segments_run :
  exists rest,
    sort_values reviews "timestamp"
    = (create_train_test reviews "timestamp" (-3) 2).1
      ++ (create_train_test reviews "timestamp" (-3) 2).2 ++ rest.
Proof.
  exact (proj1 (create_train_test_segments reviews "timestamp" (-3) 2)).
Defined.

Lemma create_train_test_ordered_run :
  let a := {| user_id := 46; movie_id := 8133; rating := 9; timestamp := 10 |}%Z in
  let b := {| user_id := 8; movie_id := 8133; rating := 5; timestamp := 30 |}%Z in
  (a ∈ (create_train_test reviews "timestamp" 2 1).1)
  /\ (b ∈ (create_train_test reviews "timestamp" 2 1).2)
  /\ column_le "timestamp" a b.
Proof.
  cbv zeta.
  assert ({| user_id := 46; movie_id := 8133; rating := 9; timestamp := 10 |}%Z
          ∈ (create_train_test reviews "timestamp" 2 1).1) as Ha by left.
  assert ({| user_id := 8; movie_id := 8133; rating := 5; timestamp := 30 |}%Z
          ∈ (create_train_test reviews "timestamp" 2 1).2) as Hb by left.
  split; [exact Ha|]. split; [exact Hb|].
  exact (create_train_test_ordered reviews "timestamp" 2 1 _ _ Ha Hb).
Defined.

Lemma quantile_permtest_length_mismatch_run :
  length [1; 2; 3] <> length groups
  /\ (quantile_permtest [1; 2; 3] groups 0.5 "less" 5%Z 0%nat).1
     = Raise IndexError.
Proof.
  assert (length [1; 2; 3] <> length groups) as Hne by discriminate.
  split; [exact Hne|].
  exact (quantile_permtest_length_mismatch [1; 2; 3] groups 0.5 "less" 5%Z
           0%nat Hne).
Defined.

Lemma quantile_permtest_two_tails_run :
  length times = length groups
  /\ (0%Z ∈ groups) /\ (1%Z ∈ groups)
  /\ level_in_range (100 * 0.5) = true
  /\ exists p_less p_greater,
       quantile_permtest times groups 0.5 "less" 5%Z 0%nat
       = (Ok p_less, (draws (permutation groups) 5 0%nat).2)
       /\ quantile_permtest times groups 0.5 "greater" 5%Z 0%nat
          = (Ok p_greater, (draws (permutation groups) 5 0%nat).2).
Proof.
  assert (0%Z ∈ groups) as Hzero by left.
  assert (1%Z ∈ groups) as Hone by (right; left).
  split; [reflexivity|]. split; [exact Hzero|]. split; [exact Hone|].
  split; [reflexivity|].
  destruct (quantile_permtest_two_tails times groups 0.5 5%Z 0%nat)
    as (ds & obs & _ & _ & Hless & Hgreater & _);
    [reflexivity | exact Hzero | exact Hone | reflexivity | lia |].
  eexists _, _. split; [exact Hless | exact Hgreater].
Defined.

Lemma quantile_permtest_empty_group_run :
  length [1; 2; 3] = length [0; 0; 0]%Z
  /\ ((0%Z ∉ [0; 0; 0]%Z) \/ (1%Z ∉ [0; 0; 0]%Z))
  /\ level_in_range (100 * 0.5) = true
  /\ (quantile_permtest [1; 2; 3] [0; 0; 0]%Z 0.5 "less" 5%Z 0%nat).1
     = Raise IndexError.
Proof.
  assert ((0%Z ∉ [0; 0; 0]%Z) \/ (1%Z ∉ [0; 0; 0]%Z)) as Habsent.
  { right. intros Hin.
    repeat (apply elem_of_cons in Hin as [Hin | Hin]; [discriminate|]).
    now apply elem_of_nil in Hin. }
  split; [reflexivity|]. split; [exact Habsent|]. split; [reflexivity|].
  exact (quantile_permtest_empty_group [1; 2; 3] [0; 0; 0]%Z 0.5 "less" 5%Z
           0%nat eq_refl Habsent eq_refl).
Defined.

Lemma quantile_permtest_level_error_run :
  length times = length groups
  /\ level_in_range (100 * 1.5) = false
  /\ (quantile_permtest times groups 1.5 "less" 5%Z 0%nat).1
     = Raise ValueError.
Proof.
  split; [reflexivity|]. split; [reflexivity|].
  exact (quantile_permtest_level_error times groups 1.5 "less" 5%Z 0%nat
           eq_refl eq_refl).
Defined.

Lemma quantile_ci_no_trials_run :
  (-3 <= 0)%Z
  /\ level_in_range ((1 - 0.5) / 2 * 100) = true
  /\ quantile_ci [1; 2; 3; 4; 10] 0.5 0.5 (-3)%Z 0%nat
     = (Raise IndexError, 0%nat).
Proof.
  split; [lia|]. split; [reflexivity|].
  apply (quantile_ci_no_trials [1; 2; 3; 4; 10] 0.5 0.5 (-3)%Z 0%nat);
    [lia | reflexivity].
Defined.

Lemma train_data_df_conformant :
  conformant train_data_df user_matrix movie_matrix.
Proof. repeat split. Qed.

Lemma val_df_known_before_2 : known_before train_data_df val_df 2.
Proof.
  intros idx row Hidx Hrow.
  destruct idx as [|[|idx]]; [| |lia]; injection Hrow as <-; simpl.
  - split; [left | right; left].
  - split; [right; right; left | left].
Qed.

Lemma validation_comparison_prints_run :
  exists lines,
    validation_comparison train_data_df user_matrix movie_matrix val_df 2 []
    = (Ok tt, lines)
    /\ length lines = 2%nat.
Proof.
  destruct (validation_comparison_prints train_data_df user_matrix movie_matrix
              val_df 2 [] train_data_df_conformant)
    as (lines & Hrun & Hlen & _);
    [simpl; lia | exact val_df_known_before_2 |].
  exists lines. split; [exact Hrun | exact Hlen].
Defined.

Lemma movie_103639_absent : 103639%Z ∉ columns train_data_df.
Proof.
  intros Hin. repeat (apply elem_of_cons in Hin as [Hin | Hin];
    [discriminate|]). now apply elem_of_nil in Hin.
Qed.

(** The third row is of a movie the training frame does not have. *)
Lemma validation_comparison_stops_run :
  exists lines,
    validation_comparison train_data_df user_matrix movie_matrix val_df 3 []
    = (Raise IndexError, lines)
    /\ length lines = 2%nat.
Proof.
  destruct (validation_comparison_stops train_data_df user_matrix movie_matrix
              val_df 3 2
              {| val_user_id := 46; val_movie_id := 103639; val_rating := 9 |}
              [] train_data_df_conformant)
    as (lines & Hrun & Hlen & _);
    [simpl; lia | reflexivity | right; exact movie_103639_absent
    | exact val_df_known_before_2 |].
  exists lines. split; [exact Hrun | exact Hlen].
Defined.

(** Five predictions asked of two rows. *)
Lemma validation_comparison_past_end_run :
  exists lines,
    validation_comparison train_data_df user_matrix movie_matrix
      (take 2 val_df) 5 []
    = (Raise IndexError, lines)
    /\ length lines = 2%nat.
Proof.
  destruct (validation_comparison_past_end train_data_df user_matrix
              movie_matrix (take 2 val_df) 5 [] train_data_df_conformant)
    as (lines & Hrun & Hlen & _); [simpl; lia | |].
  - intros idx row Hidx Hrow. apply (val_df_known_before_2 idx row Hidx).
    simpl in Hidx. now rewrite lookup_take_lt in Hrow by exact Hidx.
  - exists lines. split; [exact Hrun | exact Hlen].
Defined.

Lemma predict_rating_latent_mismatch_run :
  shape1 wide_user_matrix <> shape0 movie_matrix
  /\ predict_rating train_data_df wide_user_matrix movie_matrix 46 8133
     = Raise ValueError.
Proof.
  assert (shape1 wide_user_matrix <> shape0 movie_matrix) as Hne by discriminate.
  split; [exact Hne|].
  apply (predict_rating_latent_mismatch train_data_df wide_user_matrix
           movie_matrix 46 8133);
    [right; left | right; left | reflexivity | reflexivity | reflexivity
    | reflexivity | exact Hne].
Defined.

(** User 48 is the third row label; the user matrix has two rows. *)
Lemma predict_rating_short_user_matrix_run :
  predict_rating train_data_df short_user_matrix movie_matrix 48 8133
  = Raise IndexError.
Proof.
  apply (predict_rating_short_user_matrix train_data_df short_user_matrix
           movie_matrix 48 8133); [right; right; left | right; left |].
  intros p Hp. simpl in Hp. destruct p as [|[|p]]; [discriminate | discriminate | lia].
Defined.

Lemma FunkSVD_progress_run :
  exists lines,
    stdout (FunkSVD 0 2 0.25 3 (fresh_world one_rating)).2
    = [Text "Optimizaiton Statistics";
       Text "Iterations | Mean Squared Error "] ++ lines
    /\ numbered lines.
Proof.
  destruct (FunkSVD_progress (fresh_world one_rating) 0 one_rating 2 0.25 3)
    as (lines & Hout & _ & Hnum & _); [reflexivity|].
  exists lines. split; [exact Hout | exact Hnum].
Defined.

Lemma FunkSVD_no_rating_raises_run :
  count_not_nan no_rating = 0%nat
  /\ (FunkSVD 0 2 0.25 3 (fresh_world no_rating)).1 = Raise ZeroDivisionError.
Proof.
  split; [reflexivity|].
  rewrite (FunkSVD_no_rating_raises (fresh_world no_rating) 0 no_rating 2 0.25 3);
    [reflexivity | reflexivity | reflexivity | | reflexivity | lia].
  intros r Hr. apply elem_of_cons in Hr as [-> | Hr]; [reflexivity|].
  now apply elem_of_nil in Hr.
Defined.

Lemma FunkSVD_no_positive_rating_run :
  count_not_nan zero_rating <> 0%nat
  /\ (FunkSVD 0 2 0.25 3 (fresh_world zero_rating)).1 = Ok (1%nat, 2%nat).
Proof.
  assert (count_not_nan zero_rating <> 0%nat) as Hnum by discriminate.
  split; [exact Hnum|].
  rewrite (FunkSVD_no_positive_rating (fresh_world zero_rating) 0 zero_rating
             2 0.25 3); [reflexivity | reflexivity | reflexivity | | exact Hnum].
  intros r Hr. repeat (apply elem_of_cons in Hr as [-> | Hr]; [reflexivity|]).
  now apply elem_of_nil in Hr.
Defined.

(** The third user of [sparse_ratings] has rated nothing. *)
Lemma FunkSVD_unrated_user_run :
  exists U,
    heap (FunkSVD 0 2 0.25 2 (fresh_world sparse_ratings)).2 !! 1%nat = Some U
    /\ forall k, item U 2 k = item (rand 3 2 0%nat).1 2 k.
Proof.
  apply (FunkSVD_unrated_user (fresh_world sparse_ratings) 0 sparse_ratings 2
           0.25 2 2 eq_refl) with (movie_mat := 2%nat); [|reflexivity].
  intros j r. destruct j as [|[|j]]; simpl; intros [= <-]; reflexivity.
Defined.

(** Nobody has rated the second movie of [sparse_ratings]. *)
Lemma FunkSVD_unrated_movie_run :
  exists M0,
    heap (FunkSVD 0 2 0.25 2 (fresh_world sparse_ratings)).2 !! 2%nat = Some M0
    /\ forall k, item M0 k 1 = item (rand 2 2 (rand 3 2 0%nat).2).1 k 1.
Proof.
  apply (FunkSVD_unrated_movie (fresh_world sparse_ratings) 0 sparse_ratings 2
           0.25 2 1 eq_refl) with (user_mat := 1%nat); [|reflexivity].
  intros i r. destruct i as [|[|[|i]]]; simpl; intros [= <-]; reflexivity.
Defined.

Lemma FunkSVD_then_predict_rating_run :
  exists factors w',
    FunkSVD 0 2 0.25 2 (fresh_world sparse_ratings) = (Ok factors, w').
Proof.
  destruct (FunkSVD_then_predict_rating (fresh_world sparse_ratings) 0
              sparse_ratings train_data_df 2 0.25 2)
    as (user_mat & movie_mat & U & M0 & w' & Hrun & _);
    [reflexivity | reflexivity | reflexivity | reflexivity
    | right; discriminate |].
  exists (user_mat, movie_mat), w'. exact Hrun.
Defined.

(** One turn of the [k] loop on the factors of [Inputs]. *)
Lemma update_factors_effect_run :
  let w := {| heap := [user_matrix; movie_matrix]; stdout := [];
              generator := 0%nat |} : world float nat in
  exists w', update_factors 0 1 0.25 2 1 0 1 w = (Ok tt, w').
Proof.
  cbv zeta.
  destruct (update_factors_effect
    ({| heap := [user_matrix; movie_matrix]; stdout := []; generator := 0%nat |}
       : world float nat) 0 1 0.25 2 1 0 1 user_matrix movie_matrix 1.5 0.5)
    as (U' & M' & _ & _ & Hrun);
    [discriminate | reflexivity | reflexivity | reflexivity | reflexivity |].
  eexists. exact Hrun.
Defined.

End RunsFurther.
